(** * transfer.py: input validation and rsync invocation

    A shallow embedding of [src/transfer.py] and the properties of its
    validation predicates, its interactive correction loop and the way it
    relays the status of the rsync child process.

    Modelling conventions.
    - A Python [str] is a [string]; a character is a code point below 256
      (the type [ascii]).  On that range the regular-expression class [\d]
      is exactly the digits [0]..[9] and [str.isspace] is the set listed in
      [isspace].
    - [re.match] is a backtracking matcher written in continuation-passing
      style over the syntax of the pattern.
    - Standard input, standard output, the file system and the child
      process are fields of an explicit [world]; Python exceptions are an
      error result. *)

From Stdlib Require Import List String Ascii Bool Arith ZArith Lia.
From Stdlib Require Import DecimalString DecimalPos DecimalZ.
Import ListNotations.

Local Open Scope string_scope.
Local Open Scope list_scope.

(** ** Characters and strings *)

Definition chars (s : string) : list ascii := list_ascii_of_string s.

Definition code (c : ascii) : nat := nat_of_ascii c.

(** The line feed character, code point 10. *)
Definition LF : ascii := "010"%char.

(** [\d] restricted to code points below 256. *)
Definition is_digit (c : ascii) : bool :=
  ((48 <=? code c) && (code c <=? 57))%nat.

(** ** Regular expressions: the fragment used by [ip_pattern] *)

Module Re.

Inductive regex : Type :=
| Bol                              (* ^ *)
| Eol                              (* $ *)
| Lit (c : ascii)                  (* a literal character, also \. *)
| Range (lo hi : ascii)            (* [lo-hi] *)
| OneOf (cs : list ascii)          (* [abc] *)
| Digit                            (* \d *)
| Seq (r1 r2 : regex)              (* r1 r2 *)
| Alt (r1 r2 : regex)              (* r1|r2 *)
| Opt (r : regex)                  (* r? , greedy *)
| Rep (n : nat) (r : regex).       (* r{n} *)

Definition in_range (lo hi c : ascii) : bool :=
  ((code lo <=? code c) && (code c <=? code hi))%nat.

Definition one_of (cs : list ascii) (c : ascii) : bool :=
  existsb (Ascii.eqb c) cs.

(** Consume one character satisfying [p], then continue with [k]. *)
Definition step (p : ascii -> bool) (k : nat -> list ascii -> bool)
    (pos : nat) (s : list ascii) : bool :=
  match s with
  | [] => false
  | c :: s' => p c && k (S pos) s'
  end.

(** [$] without [re.MULTILINE]: at the end of the string, or just before a
    line feed that is the last character of the string. *)
Definition at_eol (s : list ascii) : bool :=
  match s with
  | [] => true
  | [c] => Ascii.eqb c LF
  | _ => false
  end.

(** [exec r k pos s]: try [r] at offset [pos], where [s] is the rest of the
    subject from [pos] on; alternatives are tried from left to right and an
    optional part is tried before it is skipped, as the backtracking engine
    does.  [k] is what remains to be matched. *)
Fixpoint exec (r : regex) (k : nat -> list ascii -> bool)
    (pos : nat) (s : list ascii) {struct r} : bool :=
  match r with
  | Bol => Nat.eqb pos 0 && k pos s
  | Eol => at_eol s && k pos s
  | Lit c => step (Ascii.eqb c) k pos s
  | Range lo hi => step (in_range lo hi) k pos s
  | OneOf cs => step (one_of cs) k pos s
  | Digit => step is_digit k pos s
  | Seq r1 r2 => exec r1 (exec r2 k) pos s
  | Alt r1 r2 => exec r1 k pos s || exec r2 k pos s
  | Opt r1 => exec r1 k pos s || k pos s
  | Rep n r1 => Nat.iter n (fun k' => exec r1 k') k pos s
  end.

(** [pattern.match(s) is not None]: the pattern is tried at offset 0 only,
    and need not reach the end of [s] by itself. *)
Definition matches (r : regex) (s : string) : bool :=
  exec r (fun _ _ => true) 0 (chars s).

(** What [exec] computes, as a relation: [lang r pos u v] says that [r],
    tried at offset [pos] where the subject continues with [u ++ v], can
    consume exactly [u]. *)
Inductive lang : regex -> nat -> list ascii -> list ascii -> Prop :=
| L_Bol v : lang Bol 0 [] v
| L_Eol pos v : at_eol v = true -> lang Eol pos [] v
| L_Lit c pos v : lang (Lit c) pos [c] v
| L_Range lo hi c pos v :
    in_range lo hi c = true -> lang (Range lo hi) pos [c] v
| L_OneOf cs c pos v : one_of cs c = true -> lang (OneOf cs) pos [c] v
| L_Digit c pos v : is_digit c = true -> lang Digit pos [c] v
| L_Seq r1 r2 pos u1 u2 v :
    lang r1 pos u1 (u2 ++ v) -> lang r2 (pos + List.length u1) u2 v ->
    lang (Seq r1 r2) pos (u1 ++ u2) v
| L_AltL r1 r2 pos u v : lang r1 pos u v -> lang (Alt r1 r2) pos u v
| L_AltR r1 r2 pos u v : lang r2 pos u v -> lang (Alt r1 r2) pos u v
| L_OptSome r pos u v : lang r pos u v -> lang (Opt r) pos u v
| L_OptNone r pos v : lang (Opt r) pos [] v
| L_Rep0 r pos v : lang (Rep 0 r) pos [] v
| L_RepS n r pos u1 u2 v :
    lang r pos u1 (u2 ++ v) -> lang (Rep n r) (pos + List.length u1) u2 v ->
    lang (Rep (S n) r) pos (u1 ++ u2) v.

End Re.

Import Re.

(** ** [validate_ip] *)

(** [25[0-5]|2[0-4]\d|[01]?\d\d?] *)
Definition octet : regex :=
  Alt (Seq (Lit "2") (Seq (Lit "5") (Range "0" "5")))
 (Alt (Seq (Lit "2") (Seq (Range "0" "4") Digit))
      (Seq (Opt (OneOf ["0"; "1"]%char)) (Seq Digit (Opt Digit)))).

(** [^(?:(?:octet)\.){3}(?:octet)$] *)
Definition ip_pattern : regex :=
  Seq Bol (Seq (Rep 3 (Seq octet (Lit "."))) (Seq octet Eol)).

Definition validate_ip (ip : string) : bool := matches ip_pattern ip.

(** ** Reading a dotted string the way the specification words it *)

(** [s.split(sep)] on the characters of [s]: always at least one piece. *)
Fixpoint split_on (sep : ascii) (s : list ascii) : list (list ascii) :=
  match s with
  | [] => [[]]
  | c :: s' =>
      if Ascii.eqb c sep then [] :: split_on sep s'
      else match split_on sep s' with
           | g :: gs => (c :: g) :: gs
           | [] => [[c]]
           end
  end.

(** The dot-separated components of a string. *)
Definition components (s : list ascii) : list (list ascii) :=
  split_on "." s.

(** [".".join(groups)] *)
Fixpoint join_dots (groups : list (list ascii)) : list ascii :=
  match groups with
  | [] => []
  | [g] => g
  | g :: gs => g ++ "."%char :: join_dots gs
  end.

(** A decimal group: one or more digits. *)
Definition decimal_group (g : list ascii) : bool :=
  negb (Nat.eqb (List.length g) 0) && forallb is_digit g.

(** The number a decimal group denotes. *)
Definition value (g : list ascii) : nat :=
  fold_left (fun acc c => 10 * acc + (code c - 48)) g 0.

(** A decimal group in the inclusive range 0-255, of any length. *)
Definition group_0_255 (g : list ascii) : bool :=
  decimal_group g && (value g <=? 255)%nat.

(** The same, with at most three digits. *)
Definition octet_numeral (g : list ascii) : bool :=
  group_0_255 g && (List.length g <=? 3)%nat.

(** Four dot-separated groups, each accepted by [group]. *)
Definition four_groups (group : list ascii -> bool) (s : list ascii) : bool :=
  match components s with
  | [a; b; c; d] => group a && group b && group c && group d
  | _ => false
  end.

Definition digit_or_dot (c : ascii) : bool :=
  is_digit c || Ascii.eqb c ".".

(** [s] without its last character when that character is a line feed. *)
Fixpoint chomp (s : list ascii) : list ascii :=
  match s with
  | [] => []
  | [c] => if Ascii.eqb c LF then [] else [c]
  | c :: s' => c :: chomp s'
  end.

(** Joining four groups with dots. *)
Definition dotted (a b c d : list ascii) : list ascii :=
  a ++ "."%char :: b ++ "."%char :: c ++ "."%char :: d.

(** ** [str.strip] *)

(** [str.isspace] on code points below 256. *)
Definition isspace (c : ascii) : bool :=
  let n := code c in
  ((9 <=? n) && (n <=? 13) || (28 <=? n) && (n <=? 32)
   || (n =? 133) || (n =? 160))%nat.

Fixpoint lstrip (s : list ascii) : list ascii :=
  match s with
  | [] => []
  | c :: s' => if isspace c then lstrip s' else s
  end.

Definition rstrip (s : list ascii) : list ascii := rev (lstrip (rev s)).

Definition strip (s : string) : string :=
  string_of_list_ascii (rstrip (lstrip (chars s))).

(** Neither the first nor the last character is white space. *)
Definition stripped (s : string) : bool :=
  match chars s with
  | [] => true
  | c :: _ => negb (isspace c)
  end &&
  match rev (chars s) with
  | [] => true
  | c :: _ => negb (isspace c)
  end.

(** [str(n)] for an integer. *)
Definition str_of_int (n : Z) : string := NilZero.string_of_int (Z.to_int n).

(** ** The world the script runs in *)

(** What launching a child process leads to: the child ran and ended with a
    return code (its exit status, or minus the number of the signal that
    killed it), or the executable was not found, or it was found and could
    not be executed, or the launch failed with another error of the
    operating system. *)
Inductive launch : Type :=
| Exited (returncode : Z)
| NotFound
| NotExecutable
| Failed (errno : Z).

Record world : Type := mkWorld {
  stdin : list string;            (* the lines still to be read; then EOF *)
  stdout : list string;           (* what was written, oldest first *)
  clock : nat;                    (* file system look-ups made so far *)
  fs : nat -> string -> bool;     (* does the path exist at look-up [t] *)
  child : list string -> launch;  (* what running a command leads to *)
  spawned : list (list string)    (* the commands run, oldest first *)
}.

Inductive exn : Type :=
| EOFError
| FileNotFoundError
| PermissionError
| OSError (errno : Z)
| CalledProcessError (returncode : Z)
| SystemExit (code : Z).

Inductive outcome (A : Type) : Type :=
| Done (a : A) (w : world)
| Raised (e : exn) (w : world)
| Unfinished (w : world).          (* the loop budget ran out *)

Arguments Done {A} a w.
Arguments Raised {A} e w.
Arguments Unfinished {A} w.

Definition M (A : Type) : Type := world -> outcome A.

Definition ret {A} (a : A) : M A := fun w => Done a w.

Definition bind {A B} (m : M A) (f : A -> M B) : M B :=
  fun w =>
    match m w with
    | Done a w' => f a w'
    | Raised e w' => Raised e w'
    | Unfinished w' => Unfinished w'
    end.

Definition raise {A} (e : exn) : M A := fun w => Raised e w.

Definition unfinished {A} : M A := fun w => Unfinished w.

Declare Scope py_scope.
Delimit Scope py_scope with py.
Notation "x <- m ;; k" := (bind m (fun x => k))
  (at level 61, m at next level, right associativity) : py_scope.
Notation "m ;; k" := (bind m (fun _ => k))
  (at level 61, right associativity) : py_scope.
Local Open Scope py_scope.

(** [try: body except ...]: [handler e] is [None] when no clause names [e]. *)
Definition try_except {A} (body : M A) (handler : exn -> option (M A)) : M A :=
  fun w =>
    match body w with
    | Raised e w' =>
        match handler e with
        | Some h => h w'
        | None => Raised e w'
        end
    | r => r
    end.

Definition final_world {A} (r : outcome A) : world :=
  match r with
  | Done _ w => w
  | Raised _ w => w
  | Unfinished w => w
  end.

(** The world after a piece of text was written. *)
Definition wrote (s : string) (w : world) : world :=
  mkWorld (stdin w) (stdout w ++ [s]) (clock w) (fs w) (child w) (spawned w).

(** The world in which the input still to be read is [lines]. *)
Definition left_to_read (lines : list string) (w : world) : world :=
  mkWorld lines (stdout w) (clock w) (fs w) (child w) (spawned w).

(** The world after [n] more looks at the file system. *)
Definition later (n : nat) (w : world) : world :=
  mkWorld (stdin w) (stdout w) (n + clock w) (fs w) (child w) (spawned w).

(** The world after a command was launched. *)
Definition launched (command : list string) (w : world) : world :=
  mkWorld (stdin w) (stdout w) (clock w) (fs w) (child w)
          (spawned w ++ [command]).

Definition write (s : string) : M unit := fun w => Done tt (wrote s w).

(** The text [s] followed by a line feed. *)
Definition line (s : string) : string := s ++ String LF "".

(** [print(s)]: the text and a line feed, written in one piece. *)
Definition print (s : string) : M unit := write (s ++ String LF "").

(** [input(prompt)]: the prompt is written, then a line is read without its
    line terminator; at end of input [EOFError] is raised. *)
Definition input (prompt : string) : M string :=
  write prompt ;;
  fun w =>
    match stdin w with
    | [] => Raised EOFError w
    | answer :: rest => Done answer (left_to_read rest w)
    end.

(** [os.path.exists(path)], one look at the file system. *)
Definition path_exists (path : string) : M bool :=
  fun w => Done (fs w (clock w) path) (later 1 w).

(** [subprocess.run(command, check=True)] *)
Definition subprocess_run (command : list string) : M Z :=
  fun w =>
    match child w command with
    | NotFound => Raised FileNotFoundError (launched command w)
    | NotExecutable => Raised PermissionError (launched command w)
    | Failed errno => Raised (OSError errno) (launched command w)
    | Exited rc =>
        if Z.eqb rc 0 then Done rc (launched command w)
        else Raised (CalledProcessError rc) (launched command w)
    end.

(** [sys.exit(code)] *)
Definition sys_exit {A} (code : Z) : M A := raise (SystemExit code).

(** ** The script *)

Definition validate_local_path (path : string) : M bool := path_exists path.

Fixpoint prompt_for_input (fuel : nat) (prompt_message : string)
    (validation_func : string -> M bool) (error_message : string)
    : M string :=
  match fuel with
  | O => unfinished
  | S fuel' =>
      line <- input prompt_message ;;
      let value := strip line in
      ok <- validation_func value ;;
      if ok then ret value
      else
        print ("Error: " ++ error_message ++ ". Please try again.") ;;
        prompt_for_input fuel' prompt_message validation_func error_message
  end.

(** What was given on the command line, for a command line that [argparse]
    accepts.  On a malformed command line, and on [--help], [parse_args]
    itself prints and leaves through [SystemExit] (status 2 and 0) before
    anything below runs; such command lines are not modelled. *)
Record command_line : Type := mkCommandLine {
  arg_source : option string;
  opt_user : option string;
  opt_host : option string;
  opt_remote_path : option string
}.

(** The [argparse] namespace. *)
Record Namespace : Type := mkNamespace {
  source : option string;
  user : string;
  host : string;
  remote_path : string
}.

Definition with_default (o : option string) (default : string) : string :=
  match o with
  | Some v => v
  | None => default
  end.

Definition parse_args (argv : command_line) : Namespace :=
  mkNamespace (arg_source argv)
              (with_default (opt_user argv) "cbwinslow")
              (with_default (opt_host argv) "192.168.6.69")
              (with_default (opt_remote_path argv) "/home/cbwinslow/").

(** Truth value of [args.source]: [None] and the empty string are false. *)
Definition truthy (o : option string) : bool :=
  match o with
  | Some s => negb (String.eqb s "")
  | None => false
  end.

(** [f"{o}"] *)
Definition text (o : option string) : string :=
  match o with
  | Some s => s
  | None => "None"
  end.

Definition source_diagnostic (v : string) : string :=
  "Error: Provided source '" ++ v ++ "' does not exist.".

Definition host_diagnostic (v : string) : string :=
  "Error: Provided host IP '" ++ v ++ "' is invalid.".

Definition source_prompt : string := "Enter a valid local source path: ".

Definition host_prompt : string :=
  "Enter a valid IP address for the remote host: ".

(** [not args.source or not validate_local_path(args.source)] *)
Definition source_rejected (args : Namespace) : M bool :=
  if negb (truthy (source args)) then ret true
  else ok <- validate_local_path (text (source args)) ;; ret (negb ok).

(** The block under [# Validate the source path]. *)
Definition validate_source (fuel : nat) (args : Namespace) : M Namespace :=
  bad <- source_rejected args ;;
  if bad then
    (if truthy (source args)
     then print (source_diagnostic (text (source args)))
     else ret tt) ;;
    v <- prompt_for_input fuel source_prompt validate_local_path
           "Path does not exist" ;;
    ret (mkNamespace (Some v) (user args) (host args) (remote_path args))
  else ret args.

(** The block under [# Validate the destination host IP]. *)
Definition validate_host (fuel : nat) (args : Namespace) : M Namespace :=
  if negb (validate_ip (host args)) then
    print (host_diagnostic (host args)) ;;
    v <- prompt_for_input fuel host_prompt (fun ip => ret (validate_ip ip))
           "IP address format is invalid" ;;
    ret (mkNamespace (source args) (user args) v (remote_path args))
  else ret args.

Definition get_arguments (fuel : nat) (argv : command_line) : M Namespace :=
  let args := parse_args argv in
  args <- validate_source fuel args ;;
  args <- validate_host fuel args ;;
  ret args.

Definition destination (dest_user dest_host dest_path : string) : string :=
  dest_user ++ "@" ++ dest_host ++ ":" ++ dest_path.

Definition rsync_command (source dest_user dest_host dest_path : string)
    : list string :=
  ["rsync"; "-avh"; "--progress"; "--partial"; "--inplace";
   source; destination dest_user dest_host dest_path].

Definition failed_diagnostic (returncode : Z) : string :=
  "Error: Transfer failed with error code " ++ str_of_int returncode ++ ".".

Definition not_found_diagnostic : string :=
  "Error: rsync command not found. Please ensure rsync is installed.".

Definition success_message : string := "Transfer completed successfully!".

(** The body of [main] after [get_arguments]. *)
Definition transfer (args : Namespace) : M unit :=
  let source := text (source args) in
  let dest_user := user args in
  let dest_host := host args in
  let dest_path := remote_path args in
  let command := rsync_command source dest_user dest_host dest_path in
  print "Starting file/folder transfer using rsync..." ;;
  print ("Source: " ++ source) ;;
  print ("Destination: " ++ destination dest_user dest_host dest_path) ;;
  try_except (subprocess_run command ;; ret tt)
    (fun e =>
       match e with
       | CalledProcessError returncode =>
           Some (print (failed_diagnostic returncode) ;; sys_exit returncode)
       | FileNotFoundError =>
           Some (print not_found_diagnostic ;; sys_exit 1%Z)
       | _ => None
       end) ;;
  print success_message.

Definition main (fuel : nat) (argv : command_line) : M unit :=
  args <- get_arguments fuel argv ;;
  transfer args.

(** ** How the interpreter ends *)

(** The status the process ends with: 0 when the script runs to its end,
    the low eight bits of the argument of [sys.exit], and 1 for an exception
    nothing handles. *)
Definition exit_status {A} (r : outcome A) : option Z :=
  match r with
  | Done _ _ => Some 0%Z
  | Raised (SystemExit code) _ => Some (code mod 256)%Z
  | Raised _ _ => Some 1%Z
  | Unfinished _ => None
  end.

(** The exception whose traceback the interpreter prints, when the script
    ends on an exception that nothing handles. *)
Definition traceback {A} (r : outcome A) : option exn :=
  match r with
  | Raised (SystemExit _) _ => None
  | Raised e _ => Some e
  | _ => None
  end.

(** ** Vocabulary of the statements *)

(** What the loop of [prompt_for_input] writes when it turns down an
    answer. *)
Definition retry_message (error_message : string) : string :=
  line ("Error: " ++ error_message ++ ". Please try again.").

(** The output of [n] rounds of the loop that each end in a refusal. *)
Fixpoint retries (prompt_message error_message : string) (n : nat)
    : list string :=
  match n with
  | O => []
  | S n' =>
      prompt_message :: retry_message error_message
        :: retries prompt_message error_message n'
  end.

(** [talks w w']: from [w] to [w'] lines were read, text was written and
    the file system was looked at, and nothing else happened. *)
Definition talks (w w' : world) : Prop :=
  fs w' = fs w /\ child w' = child w /\ spawned w' = spawned w /\
  clock w <= clock w' /\
  (exists out, stdout w' = stdout w ++ out) /\
  (exists used, stdin w = used ++ stdin w').

Definition talking {A} (m : M A) : Prop :=
  forall w, talks w (final_world (m w)).

(** A validation function that always answers, and in doing so at most
    looks at the file system. *)
Definition observer (v : string -> M bool) : Prop :=
  forall x w, exists b n, v x w = Done b (later n w).

(** Each of [answers], stripped, names a path that is absent when it is
    looked up, the first look-up being number [t]. *)
Fixpoint all_missing (f : nat -> string -> bool) (t : nat)
    (answers : list string) : Prop :=
  match answers with
  | [] => True
  | a :: rest => f t (strip a) = false /\ all_missing f (S t) rest
  end.

(** The world after [main] has announced the transfer. *)
Definition announced (args : Namespace) (w : world) : world :=
  wrote (line ("Destination: "
               ++ destination (user args) (host args) (remote_path args)))
    (wrote (line ("Source: " ++ text (source args)))
       (wrote (line "Starting file/folder transfer using rsync...") w)).

(** The command [main] builds from a namespace. *)
Definition command_of (args : Namespace) : list string :=
  rsync_command (text (source args)) (user args) (host args)
                (remote_path args).

(** Reading [str(n)] back. *)
Definition int_of_str (s : string) : option Z :=
  option_map Z.of_int (NilZero.int_of_string s).

Definition free_of (sep : ascii) (g : list ascii) : bool :=
  forallb (fun c => negb (Ascii.eqb c sep)) g.

(** [exec] agrees with [lang] on the pattern [r]. *)
Definition exec_computes (r : regex) : Prop :=
  forall (k : nat -> list ascii -> bool) pos s,
    exec r k pos s = true <->
    exists u v, s = u ++ v /\ lang r pos u v /\
                k (pos + List.length u) v = true.

(** [s] begins with the character [c]. *)
Definition opens_with (c : ascii) (s : string) : Prop :=
  exists rest, s = String c rest.

(** A world with the given input, a file system that never changes and a
    child that always ends the same way. *)
Definition world0 (lines : list string) (exists_ : string -> bool)
    (run : launch) : world :=
  mkWorld lines [] 0 (fun _ => exists_) (fun _ => run) [].

Definition options (src : option string) (h : option string) : command_line :=
  mkCommandLine src None h None.

(** * Properties *)

(** ** The examples of the specification *)

Example validate_ip_default : validate_ip "192.168.6.69" = true.
Proof. reflexivity. Qed.

Example validate_ip_999 : validate_ip "192.168.6.999" = false.
Proof. reflexivity. Qed.

Example validate_ip_letters : validate_ip "abc.def.1.2" = false.
Proof. reflexivity. Qed.

Example validate_ip_host_999 : validate_ip "999.1.1.1" = false.
Proof. reflexivity. Qed.

Example strip_both_ends : strip "  /tmp/x  " = "/tmp/x".
Proof. reflexivity. Qed.

Example destination_alice :
  destination "alice" "10.0.0.5" "/backup/" = "alice@10.0.0.5:/backup/".
Proof. reflexivity. Qed.

Example str_of_int_23 : str_of_int 23 = "23".
Proof. reflexivity. Qed.

(** ** The matcher computes [lang] *)

Lemma step_true p k pos s :
  step p k pos s = true <->
  exists c s', s = c :: s' /\ p c = true /\ k (S pos) s' = true.
Proof.
  destruct s as [|c s']; simpl.
  - split; [discriminate | intros (c & s' & H & _); discriminate].
  - rewrite andb_true_iff. split.
    + intros [Hp Hk]. now exists c, s'.
    + intros (c' & s'' & [= -> ->] & Hp & Hk). now split.
Qed.


Lemma exec_atom (p : ascii -> bool) (r : regex) :
  (forall k pos s, exec r k pos s = step p k pos s) ->
  (forall pos u v, lang r pos u v <-> exists c, u = [c] /\ p c = true) ->
  exec_computes r.
Proof.
  unfold exec_computes. intros Hexec Hlang k pos s. rewrite Hexec, step_true. split.
  - intros (c & s' & -> & Hp & Hk). exists [c], s'. simpl.
    repeat split; [apply Hlang; now exists c|].
    now replace (pos + 1) with (S pos) by lia.
  - intros (u & v & -> & Hl & Hk). apply Hlang in Hl as (c & -> & Hp).
    exists c, v. simpl in Hk. replace (pos + 1) with (S pos) in Hk by lia.
    now repeat split.
Qed.

Lemma exec_seq r1 r2 :
  exec_computes r1 -> exec_computes r2 -> exec_computes (Seq r1 r2).
Proof.
  unfold exec_computes. intros H1 H2 k pos s. simpl. rewrite H1. split.
  - intros (u1 & v1 & -> & L1 & K1). apply H2 in K1 as (u2 & v & -> & L2 & K).
    exists (u1 ++ u2), v. rewrite <- app_assoc. repeat split.
    + now constructor.
    + now rewrite length_app, Nat.add_assoc.
  - intros (u & v & -> & L & K). inversion L; subst.
    exists u1, (u2 ++ v). rewrite <- app_assoc. repeat split; trivial.
    apply H2. exists u2, v. repeat split; trivial.
    now rewrite length_app, Nat.add_assoc in K.
Qed.

Lemma exec_rep n r : exec_computes r -> exec_computes (Rep n r).
Proof.
  unfold exec_computes. intros Hr. induction n as [|n IH]; intros k pos s.
  - simpl. split.
    + intros K. exists [], s. repeat split; [constructor|].
      now rewrite Nat.add_0_r.
    + intros (u & v & -> & L & K). inversion L; subst. simpl in *.
      now rewrite Nat.add_0_r in K.
  - change (exec (Rep (S n) r) k pos s)
      with (exec r (exec (Rep n r) k) pos s).
    rewrite Hr. split.
    + intros (u1 & v1 & -> & L1 & K1).
      apply IH in K1 as (u2 & v & -> & L2 & K).
      exists (u1 ++ u2), v. rewrite <- app_assoc. repeat split.
      * now constructor.
      * now rewrite length_app, Nat.add_assoc.
    + intros (u & v & -> & L & K). inversion L; subst.
      exists u1, (u2 ++ v). rewrite <- app_assoc. repeat split; trivial.
      apply IH. exists u2, v. repeat split; trivial.
      now rewrite length_app, Nat.add_assoc in K.
Qed.

Lemma exec_computes_all r : exec_computes r.
Proof.
  induction r as [ | | c | lo hi | cs | | r1 IH1 r2 IH2 | r1 IH1 r2 IH2
                 | r IH | n r IH ]; unfold exec_computes in *.
  - (* ^ *)
    intros k pos s. simpl. rewrite andb_true_iff, Nat.eqb_eq. split.
    + intros [-> K]. exists [], s. repeat split; [constructor | exact K].
    + intros (u & v & -> & L & K). inversion L; subst. now split.
  - (* $ *)
    intros k pos s. simpl. rewrite andb_true_iff. split.
    + intros [E K]. exists [], s. repeat split; [now constructor|].
      now rewrite Nat.add_0_r.
    + intros (u & v & -> & L & K). inversion L; subst. simpl in *.
      rewrite Nat.add_0_r in K. now split.
  - apply (exec_atom (Ascii.eqb c)); [reflexivity|]. intros pos u v. split.
    + intros L. inversion L; subst. exists c. split; trivial.
      apply Ascii.eqb_refl.
    + intros (c' & -> & E). apply Ascii.eqb_eq in E as <-. constructor.
  - apply (exec_atom (in_range lo hi)); [reflexivity|]. intros pos u v. split.
    + intros L. inversion L; subst. now exists c.
    + intros (c' & -> & E). now constructor.
  - apply (exec_atom (one_of cs)); [reflexivity|]. intros pos u v. split.
    + intros L. inversion L; subst. now exists c.
    + intros (c' & -> & E). now constructor.
  - apply (exec_atom is_digit); [reflexivity|]. intros pos u v. split.
    + intros L. inversion L; subst. now exists c.
    + intros (c' & -> & E). now constructor.
  - now apply exec_seq.
  - (* | *)
    intros k pos s. simpl. rewrite orb_true_iff, IH1, IH2. split.
    + intros [(u & v & -> & L & K) | (u & v & -> & L & K)]; exists u, v;
        repeat split; trivial; [now apply L_AltL | now apply L_AltR].
    + intros (u & v & -> & L & K).
      inversion L; subst; [left | right]; now exists u, v.
  - (* ? *)
    intros k pos s. simpl. rewrite orb_true_iff, IH. split.
    + intros [(u & v & -> & L & K) | K].
      * exists u, v. repeat split; trivial. now apply L_OptSome.
      * exists [], s. repeat split; [apply L_OptNone|].
        now rewrite Nat.add_0_r.
    + intros (u & v & -> & L & K). inversion L; subst.
      * left. now exists u, v.
      * right. simpl in *. now rewrite Nat.add_0_r in K.
  - now apply exec_rep.
Qed.

Lemma exec_lang r (k : nat -> list ascii -> bool) pos s :
  exec r k pos s = true <->
  exists u v, s = u ++ v /\ lang r pos u v /\
              k (pos + List.length u) v = true.
Proof. apply exec_computes_all. Qed.

(** ** The language of [octet] *)

Lemma code_inj a b : code a = code b -> a = b.
Proof.
  unfold code. intros H.
  rewrite <- (ascii_nat_embedding a), <- (ascii_nat_embedding b).
  now rewrite H.
Qed.

Lemma is_digit_code c : is_digit c = true <-> 48 <= code c <= 57.
Proof.
  unfold is_digit. rewrite andb_true_iff, !Nat.leb_le. tauto.
Qed.

Lemma in_range_code lo hi c :
  in_range lo hi c = true <-> code lo <= code c <= code hi.
Proof.
  unfold in_range. rewrite andb_true_iff, !Nat.leb_le. tauto.
Qed.

Lemma one_of_01 c : one_of ["0"; "1"]%char c = true <-> 48 <= code c <= 49.
Proof.
  unfold one_of. simpl. rewrite !orb_true_iff, !Ascii.eqb_eq. split.
  - intros [-> | [-> | H]]; [cbv; lia | cbv; lia | discriminate].
  - intros H. assert (E : code c = 48 \/ code c = 49) by lia.
    destruct E as [E | E]; [left | right; left]; now apply code_inj.
Qed.


Lemma octet_numeral_1 c : octet_numeral [c] = true <-> 48 <= code c <= 57.
Proof.
  unfold octet_numeral, group_0_255, decimal_group, value. simpl.
  rewrite !andb_true_iff, Nat.leb_le, is_digit_code. lia.
Qed.

Lemma octet_numeral_2 c1 c2 :
  octet_numeral [c1; c2] = true <->
  48 <= code c1 <= 57 /\ 48 <= code c2 <= 57.
Proof.
  unfold octet_numeral, group_0_255, decimal_group, value. simpl.
  rewrite !andb_true_iff, Nat.leb_le, !is_digit_code. lia.
Qed.

Lemma octet_numeral_3 c1 c2 c3 :
  octet_numeral [c1; c2; c3] = true <->
  48 <= code c1 <= 57 /\ 48 <= code c2 <= 57 /\ 48 <= code c3 <= 57 /\
  100 * (code c1 - 48) + 10 * (code c2 - 48) + (code c3 - 48) <= 255.
Proof.
  unfold octet_numeral, group_0_255, decimal_group, value. simpl.
  rewrite !andb_true_iff, Nat.leb_le, !is_digit_code. lia.
Qed.

Lemma octet_numeral_long c1 c2 c3 c4 g :
  octet_numeral (c1 :: c2 :: c3 :: c4 :: g) = false.
Proof.
  unfold octet_numeral. apply andb_false_iff. now right.
Qed.


(** Taking a derivation of a compound pattern apart. *)
Ltac lang_inv :=
  repeat match goal with
         | H : lang (Seq _ _) _ _ _ |- _ => inversion H; subst; clear H
         | H : lang (Alt _ _) _ _ _ |- _ => inversion H; subst; clear H
         | H : lang (Opt _) _ _ _ |- _ => inversion H; subst; clear H
         | H : lang (Lit _) _ _ _ |- _ => inversion H; subst; clear H
         | H : lang (Range _ _) _ _ _ |- _ => inversion H; subst; clear H
         | H : lang (OneOf _) _ _ _ |- _ => inversion H; subst; clear H
         | H : lang Digit _ _ _ |- _ => inversion H; subst; clear H
         | H : lang Bol _ _ _ |- _ => inversion H; subst; clear H
         | H : lang Eol _ _ _ |- _ => inversion H; subst; clear H
         end.

Ltac to_codes :=
  repeat match goal with
         | H : is_digit _ = true |- _ => apply is_digit_code in H
         | H : in_range _ _ _ = true |- _ => apply in_range_code in H
         | H : one_of _ _ = true |- _ => apply one_of_01 in H
         end;
  change (code "0") with 48 in *; change (code "1") with 49 in *;
  change (code "2") with 50 in *; change (code "4") with 52 in *;
  change (code "5") with 53 in *.

Lemma lang_octet_sound pos u v : lang octet pos u v -> octet_numeral u = true.
Proof.
  unfold octet. intros L. lang_inv; simpl; to_codes;
    first [ apply octet_numeral_1 | apply octet_numeral_2
          | apply octet_numeral_3 ];
    change (code "2") with 50; change (code "5") with 53; lia.
Qed.

Lemma lang_seq3 r1 r2 r3 pos c1 c2 c3 v :
  lang r1 pos c1 (c2 ++ c3 ++ v) ->
  lang r2 (pos + List.length c1) c2 (c3 ++ v) ->
  lang r3 (pos + List.length c1 + List.length c2) c3 v ->
  lang (Seq r1 (Seq r2 r3)) pos (c1 ++ c2 ++ c3) v.
Proof.
  intros H1 H2 H3. constructor.
  - now rewrite <- app_assoc.
  - now constructor.
Qed.

Lemma lang_octet_complete pos u v : octet_numeral u = true -> lang octet pos u v.
Proof.
  unfold octet. intros H.
  destruct u as [|c1 [|c2 [|c3 [|c4 g]]]].
  - discriminate.
  - apply octet_numeral_1 in H. apply L_AltR, L_AltR.
    apply (lang_seq3 _ _ _ pos [] [c1] []).
    + apply L_OptNone.
    + constructor. now apply is_digit_code.
    + apply L_OptNone.
  - apply octet_numeral_2 in H as [H1 H2]. apply L_AltR, L_AltR.
    apply (lang_seq3 _ _ _ pos [] [c1] [c2]).
    + apply L_OptNone.
    + constructor. now apply is_digit_code.
    + apply L_OptSome. constructor. now apply is_digit_code.
  - apply octet_numeral_3 in H as (H1 & H2 & H3 & H).
    destruct (Nat.le_gt_cases (code c1) 49) as [Hc1 | Hc1].
    + apply L_AltR, L_AltR. apply (lang_seq3 _ _ _ pos [c1] [c2] [c3]).
      * apply L_OptSome. constructor. apply one_of_01. lia.
      * constructor. now apply is_digit_code.
      * apply L_OptSome. constructor. now apply is_digit_code.
    + assert (E1 : c1 = "2"%char) by (apply code_inj; change (code "2") with 50; lia).
      subst c1. change (code "2") with 50 in H.
      destruct (Nat.le_gt_cases (code c2) 52) as [Hc2 | Hc2].
      * apply L_AltR, L_AltL. apply (lang_seq3 _ _ _ pos ["2"%char] [c2] [c3]).
        -- constructor.
        -- constructor. apply in_range_code.
           change (code "0") with 48; change (code "4") with 52. lia.
        -- constructor. now apply is_digit_code.
      * assert (E2 : c2 = "5"%char)
          by (apply code_inj; change (code "5") with 53; lia).
        subst c2. change (code "5") with 53 in H.
        apply L_AltL. apply (lang_seq3 _ _ _ pos ["2"%char] ["5"%char] [c3]).
        -- constructor.
        -- constructor.
        -- constructor. apply in_range_code.
           change (code "0") with 48; change (code "5") with 53. lia.
  - now rewrite octet_numeral_long in H.
Qed.

Lemma lang_octet pos u v : lang octet pos u v <-> octet_numeral u = true.
Proof.
  split; [apply lang_octet_sound | apply lang_octet_complete].
Qed.

(** ** What [validate_ip] accepts *)

Lemma lang_rep_inv n r pos u v :
  lang (Rep (S n) r) pos u v ->
  exists u1 u2, u = u1 ++ u2 /\ lang r pos u1 (u2 ++ v) /\
                lang (Rep n r) (pos + List.length u1) u2 v.
Proof. intros L. inversion L; subst. now exists u1, u2. Qed.

Lemma lang_rep0_inv r pos u v : lang (Rep 0 r) pos u v -> u = [].
Proof. intros L. now inversion L. Qed.

Lemma lang_octet_dot pos u v :
  lang (Seq octet (Lit ".")) pos u v <->
  exists g, u = g ++ ["."%char] /\ octet_numeral g = true.
Proof.
  split.
  - intros L. inversion L; subst.
    match goal with
    | Ho : lang octet _ _ _, Hl : lang (Lit _) _ _ _ |- _ =>
        apply lang_octet in Ho; inversion Hl; subst
    end.
    now exists u1.
  - intros (g & -> & H). constructor; [now apply lang_octet | constructor].
Qed.

Lemma validate_ip_iff s :
  validate_ip s = true <->
  exists a b c d t,
    chars s = dotted a b c d ++ t /\
    octet_numeral a = true /\ octet_numeral b = true /\
    octet_numeral c = true /\ octet_numeral d = true /\
    at_eol t = true.
Proof.
  unfold validate_ip, matches. rewrite exec_lang. split.
  - intros (u & v & E & L & _). unfold ip_pattern in L.
    inversion L as [| | | | | | ? ? ? u0 u' ? L0 L1 | | | | | |]; subst.
    inversion L0; subst. clear L0. simpl in *.
    inversion L1 as [| | | | | | ? ? ? u3 u4 ? L3 L4 | | | | | |]; subst.
    clear L1.
    apply lang_rep_inv in L3 as (x1 & y1 & -> & A & L3).
    apply lang_rep_inv in L3 as (x2 & y2 & -> & B & L3).
    apply lang_rep_inv in L3 as (x3 & y3 & -> & C & L3).
    apply lang_rep0_inv in L3 as ->.
    apply lang_octet_dot in A as (a & -> & Ha).
    apply lang_octet_dot in B as (b & -> & Hb).
    apply lang_octet_dot in C as (c & -> & Hc).
    inversion L4 as [| | | | | | ? ? ? d e ? D Z | | | | | |]; subst.
    apply lang_octet in D. inversion Z; subst.
    exists a, b, c, d, v. rewrite E. unfold dotted.
    repeat split; trivial.
    repeat (rewrite <- ?app_assoc, ?app_nil_r; simpl). reflexivity.
  - intros (a & b & c & d & t & E & Ha & Hb & Hc & Hd & Ht).
    exists (dotted a b c d), t. repeat split; trivial.
    unfold ip_pattern.
    apply (L_Seq Bol _ 0 [] (dotted a b c d)); [constructor|]. simpl.
    replace (dotted a b c d)
      with (((a ++ ["."%char]) ++ (b ++ ["."%char]) ++ (c ++ ["."%char]) ++ [])
              ++ (d ++ []))
      by (unfold dotted; repeat (rewrite <- ?app_assoc, ?app_nil_r; simpl);
          reflexivity).
    constructor.
    + repeat (constructor; [apply lang_octet_dot; eexists; split; eauto|]).
      constructor.
    + constructor; [now apply lang_octet | now constructor].
Qed.

(** ** Splitting at dots *)

Lemma split_on_nonempty sep s : split_on sep s <> [].
Proof.
  destruct s as [|c s]; simpl; [discriminate|].
  destruct (Ascii.eqb c sep); [discriminate|].
  destruct (split_on sep s); discriminate.
Qed.

Lemma split_on_free sep g : free_of sep g = true -> split_on sep g = [g].
Proof.
  induction g as [|c g IH]; simpl; [reflexivity|].
  rewrite andb_true_iff, negb_true_iff. intros [-> H].
  now rewrite (IH H).
Qed.

Lemma split_on_app sep g rest :
  free_of sep g = true ->
  split_on sep (g ++ sep :: rest) = g :: split_on sep rest.
Proof.
  induction g as [|c g IH]; simpl.
  - now rewrite Ascii.eqb_refl.
  - rewrite andb_true_iff, negb_true_iff. intros [-> H].
    now rewrite (IH H).
Qed.

Lemma join_split s : join_dots (split_on "." s) = s.
Proof.
  induction s as [|c s IH]; simpl; [reflexivity|].
  destruct (Ascii.eqb c ".") eqn:E.
  - apply Ascii.eqb_eq in E as ->.
    destruct (split_on "." s) as [|g gs] eqn:S.
    + now apply split_on_nonempty in S.
    + simpl in *. now rewrite IH.
  - destruct (split_on "." s) as [|g gs] eqn:S.
    + now apply split_on_nonempty in S.
    + rewrite <- IH. now destruct gs.
Qed.

Lemma digits_free_of sep g :
  is_digit sep = false -> forallb is_digit g = true -> free_of sep g = true.
Proof.
  intros Hsep. unfold free_of. rewrite !forallb_forall. intros H c Hc.
  apply negb_true_iff. destruct (Ascii.eqb c sep) eqn:E; trivial.
  apply Ascii.eqb_eq in E as ->. specialize (H _ Hc). congruence.
Qed.

Lemma octet_numeral_digits g :
  octet_numeral g = true -> forallb is_digit g = true.
Proof.
  unfold octet_numeral, group_0_255, decimal_group.
  rewrite !andb_true_iff. tauto.
Qed.

Lemma octet_numeral_le g : octet_numeral g = true -> value g <= 255.
Proof.
  unfold octet_numeral, group_0_255.
  rewrite !andb_true_iff, Nat.leb_le. tauto.
Qed.

Lemma at_eol_inv t : at_eol t = true <-> t = [] \/ t = [LF].
Proof.
  destruct t as [|c [|c' t]]; simpl.
  - tauto.
  - rewrite Ascii.eqb_eq. split.
    + intros ->. now right.
    + intros [H | [= ->]]; [discriminate | reflexivity].
  - split; [discriminate | intros [H | H]; discriminate].
Qed.

Lemma chomp_free s : free_of LF s = true -> chomp s = s.
Proof.
  induction s as [|c s IH]; [reflexivity|].
  simpl. rewrite andb_true_iff, negb_true_iff. intros [Hc H].
  destruct s as [|c' s]; [now rewrite Hc|].
  now rewrite (IH H).
Qed.

Lemma chomp_LF s : chomp (s ++ [LF]) = s.
Proof.
  induction s as [|c s IH]; [reflexivity|].
  simpl app. simpl chomp. destruct (s ++ [LF]) eqn:E.
  - now destruct s.
  - now rewrite IH.
Qed.

Lemma free_of_app sep a b :
  free_of sep (a ++ b) = free_of sep a && free_of sep b.
Proof. apply forallb_app. Qed.

Lemma dotted_digit_or_dot a b c d :
  forallb is_digit a = true -> forallb is_digit b = true ->
  forallb is_digit c = true -> forallb is_digit d = true ->
  forallb digit_or_dot (dotted a b c d) = true.
Proof.
  intros Ha Hb Hc Hd. unfold dotted.
  assert (W : forall g, forallb is_digit g = true ->
                        forallb digit_or_dot g = true).
  { intros g. rewrite !forallb_forall. intros H x Hx.
    unfold digit_or_dot. now rewrite (H x Hx). }
  repeat (rewrite forallb_app; simpl).
  now rewrite !W.
Qed.

Lemma digit_or_dot_free_of_LF s :
  forallb digit_or_dot s = true -> free_of LF s = true.
Proof.
  unfold free_of. rewrite !forallb_forall. intros H c Hc.
  specialize (H c Hc). apply negb_true_iff.
  destruct (Ascii.eqb c LF) eqn:E; trivial.
  apply Ascii.eqb_eq in E as ->. discriminate.
Qed.

(** The shape of every accepted string. *)
Lemma validate_ip_shape s :
  validate_ip s = true ->
  exists a b c d t,
    chars s = dotted a b c d ++ t /\
    octet_numeral a = true /\ octet_numeral b = true /\
    octet_numeral c = true /\ octet_numeral d = true /\
    (t = [] \/ t = [LF]) /\
    components (chars s) = [a; b; c; d ++ t] /\
    chomp (chars s) = dotted a b c d.
Proof.
  intros H. apply validate_ip_iff in H
    as (a & b & c & d & t & E & Ha & Hb & Hc & Hd & Ht).
  apply at_eol_inv in Ht.
  exists a, b, c, d, t. repeat split; trivial.
  - rewrite E. unfold components, dotted.
    repeat (rewrite <- ?app_assoc; simpl).
    assert (F : forall g, octet_numeral g = true -> free_of "." g = true).
    { intros g Hg. apply digits_free_of; [reflexivity|].
      now apply octet_numeral_digits. }
    rewrite !split_on_app by now apply F.
    rewrite split_on_free; [reflexivity|].
    rewrite free_of_app, (F d Hd). now destruct Ht as [-> | ->].
  - rewrite E.
    assert (D : forallb digit_or_dot (dotted a b c d) = true)
      by (apply dotted_digit_or_dot; now apply octet_numeral_digits).
    destruct Ht as [-> | ->].
    + rewrite app_nil_r. now apply chomp_free, digit_or_dot_free_of_LF.
    + apply chomp_LF.
Qed.

Lemma components_dotted s a b c d :
  components s = [a; b; c; d] -> s = dotted a b c d.
Proof.
  unfold components. intros H. rewrite <- (join_split s), H. reflexivity.
Qed.

Lemma validate_ip_dotted s a b c d :
  chars s = dotted a b c d ->
  octet_numeral a = true -> octet_numeral b = true ->
  octet_numeral c = true -> octet_numeral d = true ->
  validate_ip s = true.
Proof.
  intros E Ha Hb Hc Hd. apply validate_ip_iff.
  exists a, b, c, d, []. rewrite app_nil_r. now repeat split.
Qed.

Lemma four_groups_inv group s :
  four_groups group s = true ->
  exists a b c d, components s = [a; b; c; d] /\
    group a = true /\ group b = true /\ group c = true /\ group d = true.
Proof.
  unfold four_groups.
  destruct (components s) as [|a [|b [|c [|d [|e l]]]]]; try discriminate.
  rewrite !andb_true_iff. intros [[[Ha Hb] Hc] Hd].
  now exists a, b, c, d.
Qed.

Lemma not_true_false b : b <> true -> b = false.
Proof. now destruct b. Qed.

(** C1 (as amended).  On strings whose characters are code points below
    256, where the digits are [0] to [9]: [validate_ip] returns true for
    every string made of exactly four dot-separated decimal groups of one to
    three digits, each denoting a number in 0-255.  It returns false for
    every string with a decimal component denoting more than 255, for every
    string with other than four dot-separated components, and for every
    string that has a character other than a digit or a dot anywhere but in
    a line feed at its very end; whatever it accepts is, a final line feed
    apart, four such groups joined by dots. *)
Theorem validate_ip_amended :
  (forall s, four_groups octet_numeral (chars s) = true ->
             validate_ip s = true) /\
  (forall s g, In g (components (chars s)) -> decimal_group g = true ->
               255 < value g -> validate_ip s = false) /\
  (forall s, List.length (components (chars s)) <> 4 ->
             validate_ip s = false) /\
  (forall s, forallb digit_or_dot (chomp (chars s)) = false ->
             validate_ip s = false) /\
  (forall s, validate_ip s = true ->
             four_groups octet_numeral (chomp (chars s)) = true).
Proof.
  repeat split.
  - intros s H. apply four_groups_inv in H
      as (a & b & c & d & E & Ha & Hb & Hc & Hd).
    apply components_dotted in E. now apply (validate_ip_dotted s a b c d).
  - intros s g Hin Hg Hv. apply not_true_false. intros H.
    apply validate_ip_shape in H
      as (a & b & c & d & t & _ & Ha & Hb & Hc & Hd & Ht & E & _).
    rewrite E in Hin. simpl in Hin.
    destruct Hin as [<- | [<- | [<- | [<- | []]]]];
      try (match goal with
           | Ho : octet_numeral ?x = true, Hv : 255 < value ?x |- _ =>
               apply octet_numeral_le in Ho; lia
           end).
    destruct Ht as [-> | ->].
    + rewrite app_nil_r in Hv. apply octet_numeral_le in Hd. lia.
    + unfold decimal_group in Hg. rewrite forallb_app in Hg. simpl in Hg.
      rewrite !andb_true_iff in Hg. destruct Hg as [_ [_ Hg]]. discriminate.
  - intros s Hn. apply not_true_false. intros H.
    apply validate_ip_shape in H
      as (a & b & c & d & t & _ & _ & _ & _ & _ & _ & E & _).
    now rewrite E in Hn.
  - intros s Hn. apply not_true_false. intros H.
    apply validate_ip_shape in H
      as (a & b & c & d & t & _ & Ha & Hb & Hc & Hd & _ & _ & E).
    rewrite E, dotted_digit_or_dot in Hn;
      [discriminate | now apply octet_numeral_digits ..].
  - intros s H. apply validate_ip_shape in H
      as (a & b & c & d & t & _ & Ha & Hb & Hc & Hd & _ & _ & E).
    rewrite E. unfold four_groups, components, dotted.
    assert (F : forall g, octet_numeral g = true -> free_of "." g = true).
    { intros g Hg. apply digits_free_of; [reflexivity|].
      now apply octet_numeral_digits. }
    rewrite !split_on_app by now apply F.
    rewrite split_on_free by now apply F.
    now rewrite Ha, Hb, Hc, Hd.
Qed.

(** C1 as worded fails twice: a group may denote a number in 0-255 with
    more than three digits and is then rejected, and a string that ends in
    a line feed after four good groups is accepted although the line feed
    is neither a digit nor a dot. *)
Lemma validate_ip_claim_counterexample :
  (four_groups group_0_255 (chars "0001.2.3.4") = true /\
   validate_ip "0001.2.3.4" = false) /\
  (forallb digit_or_dot (chars (String.append "1.2.3.4" (String LF "")))
     = false /\
   validate_ip (String.append "1.2.3.4" (String LF "")) = true).
Proof. repeat split; reflexivity. Qed.

Lemma validate_ip_amended_witness :
  validate_ip "192.168.6.69" = true /\
  validate_ip "192.168.6.999" = false /\
  validate_ip "1.2.3" = false /\
  validate_ip "abc.def.1.2" = false /\
  four_groups octet_numeral (chomp (chars "10.0.0.5")) = true.
Proof.
  destruct validate_ip_amended as (A & B & C & D & E).
  split; [|split; [|split; [|split]]].
  - apply A. reflexivity.
  - apply (B "192.168.6.999" (chars "999"));
      [simpl; tauto | reflexivity | apply Nat.ltb_lt; reflexivity].
  - apply C. simpl. lia.
  - apply D. reflexivity.
  - apply E. reflexivity.
Defined.

(** C9.  Four dot-separated numerals of at most three digits each, each
    denoting a number in 0-255, are accepted whether or not the numerals
    carry leading zeros. *)
Theorem validate_ip_leading_zeros a b c d :
  octet_numeral a = true -> octet_numeral b = true ->
  octet_numeral c = true -> octet_numeral d = true ->
  validate_ip (string_of_list_ascii (dotted a b c d)) = true.
Proof.
  intros Ha Hb Hc Hd. apply (validate_ip_dotted _ a b c d); trivial.
  unfold chars. apply list_ascii_of_string_of_list_ascii.
Qed.

Lemma validate_ip_leading_zeros_witness :
  string_of_list_ascii
    (dotted (chars "001") (chars "010") (chars "000") (chars "255"))
    = "001.010.000.255" /\
  validate_ip "001.010.000.255" = true.
Proof.
  split; [reflexivity|].
  apply (validate_ip_leading_zeros
           (chars "001") (chars "010") (chars "000") (chars "255"));
    reflexivity.
Defined.

(** ** [str.strip] *)

Lemma chars_of_list l : chars (string_of_list_ascii l) = l.
Proof. apply list_ascii_of_string_of_list_ascii. Qed.

Lemma lstrip_head l :
  match lstrip l with
  | [] => true
  | c :: _ => negb (isspace c)
  end = true.
Proof.
  induction l as [|c l IH]; simpl; [reflexivity|].
  destruct (isspace c) eqn:E; [exact IH | now rewrite E].
Qed.

Lemma lstrip_suffix l : exists sp, l = sp ++ lstrip l.
Proof.
  induction l as [|c l [sp IH]]; simpl.
  - now exists [].
  - destruct (isspace c).
    + exists (c :: sp). simpl. now rewrite <- IH.
    + now exists [].
Qed.

Lemma rstrip_prefix l : exists sp, l = rstrip l ++ sp.
Proof.
  unfold rstrip. destruct (lstrip_suffix (rev l)) as [sp E].
  exists (rev sp). rewrite <- rev_app_distr, <- E. now rewrite rev_involutive.
Qed.

Lemma strip_stripped s : stripped (strip s) = true.
Proof.
  unfold stripped, strip. rewrite chars_of_list. apply andb_true_iff. split.
  - destruct (rstrip_prefix (lstrip (chars s))) as [sp E].
    pose proof (lstrip_head (chars s)) as H.
    destruct (rstrip (lstrip (chars s))) as [|c r]; [reflexivity|].
    rewrite E in H. exact H.
  - unfold rstrip. rewrite rev_involutive. apply lstrip_head.
Qed.

(** ** Computations that only talk *)

Lemma talks_refl w : talks w w.
Proof.
  unfold talks. repeat split; trivial.
  - exists []. now rewrite app_nil_r.
  - now exists [].
Qed.

Lemma talks_trans w1 w2 w3 : talks w1 w2 -> talks w2 w3 -> talks w1 w3.
Proof.
  intros (F1 & C1 & S1 & T1 & [o1 O1] & [u1 U1])
         (F2 & C2 & S2 & T2 & [o2 O2] & [u2 U2]).
  unfold talks. repeat split; try congruence; try lia.
  - exists (o1 ++ o2). now rewrite O2, O1, app_assoc.
  - exists (u1 ++ u2). now rewrite U1, U2, app_assoc.
Qed.

Lemma talking_ret {A} (a : A) : talking (ret a).
Proof. intros w. apply talks_refl. Qed.

Lemma talking_unfinished {A} : talking (@unfinished A).
Proof. intros w. apply talks_refl. Qed.

Lemma talking_bind {A B} (m : M A) (f : A -> M B) :
  talking m -> (forall a, talking (f a)) -> talking (bind m f).
Proof.
  intros Hm Hf w. unfold bind. specialize (Hm w).
  destruct (m w) as [a w' | e w' | w']; simpl in *; trivial.
  eapply talks_trans; [exact Hm | apply Hf].
Qed.

Lemma talking_write s : talking (write s).
Proof.
  intros w. unfold talks. simpl. repeat split; trivial.
  - now exists [s].
  - now exists [].
Qed.

Lemma talking_print s : talking (print s).
Proof. apply talking_write. Qed.

Lemma talking_input p : talking (input p).
Proof.
  unfold input. apply talking_bind; [apply talking_write|]. intros _ w.
  destruct (stdin w) as [|l rest] eqn:E; simpl; [apply talks_refl|].
  unfold talks. simpl. repeat split; trivial.
  - exists []. now rewrite app_nil_r.
  - exists [l]. now rewrite E.
Qed.

Lemma talking_path_exists p : talking (path_exists p).
Proof.
  intros w. unfold talks. simpl. repeat split; trivial; try lia.
  - exists []. now rewrite app_nil_r.
  - now exists [].
Qed.

Lemma talks_later n w : talks w (later n w).
Proof.
  unfold talks. simpl. repeat split; trivial; try lia.
  - exists []. now rewrite app_nil_r.
  - now exists [].
Qed.


Lemma observer_pure (p : string -> bool) : observer (fun x => ret (p x)).
Proof. intros x w. exists (p x), 0. now destruct w. Qed.

Lemma observer_validate_local_path : observer validate_local_path.
Proof. intros x w. exists (fs w (clock w) x), 1. reflexivity. Qed.

Lemma talking_prompt_for_input fuel pm v em :
  (forall x, talking (v x)) -> talking (prompt_for_input fuel pm v em).
Proof.
  intros Hv. induction fuel as [|fuel IH]; simpl.
  - apply talking_unfinished.
  - apply talking_bind; [apply talking_input|]. intros l.
    apply talking_bind; [apply Hv|]. intros [|].
    + apply talking_ret.
    + apply talking_bind; [apply talking_print | intros _; exact IH].
Qed.

Lemma talking_validate_source fuel args : talking (validate_source fuel args).
Proof.
  unfold validate_source, source_rejected.
  apply talking_bind.
  - destruct (negb (truthy (source args))); [apply talking_ret|].
    apply talking_bind; [apply talking_path_exists|].
    intros b. apply talking_ret.
  - intros [|]; [|apply talking_ret].
    apply talking_bind.
    + destruct (truthy (source args));
        [apply talking_print | apply talking_ret].
    + intros _. apply talking_bind.
      * apply talking_prompt_for_input. intros x. apply talking_path_exists.
      * intros v. apply talking_ret.
Qed.

Lemma talking_validate_host fuel args : talking (validate_host fuel args).
Proof.
  unfold validate_host. destruct (negb (validate_ip (host args)));
    [|apply talking_ret].
  apply talking_bind; [apply talking_print|]. intros _.
  apply talking_bind.
  - apply talking_prompt_for_input. intros x. apply talking_ret.
  - intros v. apply talking_ret.
Qed.

Lemma talking_get_arguments fuel argv : talking (get_arguments fuel argv).
Proof.
  unfold get_arguments.
  apply talking_bind; [apply talking_validate_source|]. intros a.
  apply talking_bind; [apply talking_validate_host|]. intros a'.
  apply talking_ret.
Qed.

(** ** One round of the loop of [prompt_for_input] *)

Lemma prompt_round_eof fuel pm v em w :
  stdin w = [] ->
  prompt_for_input (S fuel) pm v em w = Raised EOFError (wrote pm w).
Proof.
  intros E. simpl. unfold bind, input, bind, write. simpl. now rewrite E.
Qed.

Lemma prompt_round fuel pm v em w answer rest :
  stdin w = answer :: rest ->
  prompt_for_input (S fuel) pm v em w =
  match v (strip answer) (left_to_read rest (wrote pm w)) with
  | Done true w' => Done (strip answer) w'
  | Done false w' =>
      prompt_for_input fuel pm v em (wrote (retry_message em) w')
  | Raised e w' => Raised e w'
  | Unfinished w' => Unfinished w'
  end.
Proof.
  intros E. simpl. unfold bind at 1. unfold input, bind, write. simpl.
  rewrite E. unfold bind.
  destruct (v (strip answer) (left_to_read rest (wrote pm w)))
    as [[|] w' | e w' | w']; reflexivity.
Qed.

Lemma talks_round pm rest answer w :
  stdin w = answer :: rest -> talks w (left_to_read rest (wrote pm w)).
Proof.
  intros E. unfold talks. simpl. repeat split; trivial.
  - now exists [pm].
  - exists [answer]. now rewrite E.
Qed.

Lemma talks_wrote s w : talks w (wrote s w).
Proof. apply (talking_write s w). Qed.

Lemma talks_stdin_in w w' x : talks w w' -> In x (stdin w') -> In x (stdin w).
Proof.
  intros (_ & _ & _ & _ & _ & [u U]) H. rewrite U. apply in_or_app. now right.
Qed.

(** What a returned value is: the strip of an answer that was read, and
    the value on which the validation function last answered yes. *)
Lemma prompt_for_input_returns fuel pm v em :
  (forall x, talking (v x)) ->
  forall w value w',
    prompt_for_input fuel pm v em w = Done value w' ->
    stripped value = true /\
    (exists answer, In answer (stdin w) /\ value = strip answer) /\
    (exists w1, talks w w1 /\ v value w1 = Done true w').
Proof.
  intros Hv. induction fuel as [|fuel IH]; intros w value w' H.
  - discriminate.
  - destruct (stdin w) as [|answer rest] eqn:E.
    + rewrite prompt_round_eof in H by exact E. discriminate.
    + rewrite (prompt_round _ _ _ _ _ _ _ E) in H.
      pose proof (talks_round pm rest answer w E) as T1.
      pose proof (Hv (strip answer) (left_to_read rest (wrote pm w))) as T2.
      destruct (v (strip answer) (left_to_read rest (wrote pm w)))
        as [[|] w2 | e w2 | w2] eqn:V; try discriminate.
      * injection H as <- <-. repeat split.
        -- apply strip_stripped.
        -- exists answer. split; [now left | reflexivity].
        -- now exists (left_to_read rest (wrote pm w)).
      * simpl in T2.
        assert (T : talks w (wrote (retry_message em) w2)).
        { eapply talks_trans; [exact T1|].
          eapply talks_trans; [exact T2 | apply talks_wrote]. }
        apply IH in H as (H1 & (a & Ha & ->) & (w1 & Hw1 & Hd)).
        repeat split; trivial.
        -- exists a. split; trivial. rewrite <- E.
           eapply talks_stdin_in; eauto.
        -- exists w1. split; trivial. eapply talks_trans; eauto.
Qed.

(** With enough fuel the loop ends: it returns, or the input is used up
    and [input] raises [EOFError]. *)
Lemma prompt_for_input_ends pm v em :
  observer v ->
  forall fuel w,
    List.length (stdin w) < fuel ->
    (exists value w', prompt_for_input fuel pm v em w = Done value w') \/
    (exists w', prompt_for_input fuel pm v em w = Raised EOFError w' /\
                stdin w' = []).
Proof.
  intros Hv. induction fuel as [|fuel IH]; intros w Hf; [lia|].
  destruct (stdin w) as [|answer rest] eqn:E.
  - right. exists (wrote pm w). split; [now apply prompt_round_eof | exact E].
  - rewrite (prompt_round _ _ _ _ _ _ _ E).
    destruct (Hv (strip answer) (left_to_read rest (wrote pm w)))
      as (b & n & ->).
    destruct b.
    + left. eauto.
    + apply IH. simpl in *. lia.
Qed.

(** A run of refused answers, then an accepted one: a validation function
    that is a predicate. *)
Lemma prompt_for_input_pure_run (p : string -> bool) pm em :
  forall bad good rest fuel w,
    stdin w = bad ++ good :: rest ->
    Forall (fun a => p (strip a) = false) bad ->
    p (strip good) = true ->
    List.length bad < fuel ->
    prompt_for_input fuel pm (fun x => ret (p x)) em w =
    Done (strip good)
         (mkWorld rest (stdout w ++ retries pm em (List.length bad) ++ [pm])
                  (clock w) (fs w) (child w) (spawned w)).
Proof.
  induction bad as [|a bad IH]; intros good rest fuel w E Hbad Hgood Hf;
    (destruct fuel as [|fuel]; [simpl in Hf; lia|]).
  - rewrite (prompt_round _ _ _ _ _ _ _ E). unfold ret. now rewrite Hgood.
  - rewrite (prompt_round _ _ _ _ _ _ _ E). unfold ret.
    inversion Hbad as [|? ? Ha Hbad']; subst. rewrite Ha.
    rewrite (IH good rest); trivial; [|simpl in *; lia].
    simpl. f_equal. f_equal. now rewrite <- !app_assoc.
Qed.

(** The same for [validate_local_path], whose answer depends on when the
    file system is looked at. *)
Lemma prompt_for_input_path_run pm em :
  forall bad good rest fuel w,
    stdin w = bad ++ good :: rest ->
    all_missing (fs w) (clock w) bad ->
    fs w (List.length bad + clock w) (strip good) = true ->
    List.length bad < fuel ->
    prompt_for_input fuel pm validate_local_path em w =
    Done (strip good)
         (mkWorld rest (stdout w ++ retries pm em (List.length bad) ++ [pm])
                  (S (List.length bad) + clock w) (fs w) (child w)
                  (spawned w)).
Proof.
  induction bad as [|a bad IH]; intros good rest fuel w E Hbad Hgood Hf;
    (destruct fuel as [|fuel]; [simpl in Hf; lia|]).
  - rewrite (prompt_round _ _ _ _ _ _ _ E).
    unfold validate_local_path, path_exists. simpl in *. now rewrite Hgood.
  - rewrite (prompt_round _ _ _ _ _ _ _ E).
    unfold validate_local_path, path_exists. simpl in *.
    destruct Hbad as [Ha Hbad]. rewrite Ha.
    rewrite (IH good rest); trivial; simpl; trivial; try lia.
    + f_equal. f_equal; [now rewrite <- !app_assoc | lia].
    + now replace (List.length bad + S (clock w))
        with (S (List.length bad + clock w)) by lia.
Qed.


Lemma prompt_for_input_path_eof pm em :
  forall bad fuel w,
    stdin w = bad ->
    all_missing (fs w) (clock w) bad ->
    List.length bad < fuel ->
    prompt_for_input fuel pm validate_local_path em w =
    Raised EOFError
         (mkWorld [] (stdout w ++ retries pm em (List.length bad) ++ [pm])
                  (List.length bad + clock w) (fs w) (child w) (spawned w)).
Proof.
  induction bad as [|a bad IH]; intros fuel w E Hbad Hf;
    (destruct fuel as [|fuel]; [simpl in Hf; lia|]).
  - rewrite prompt_round_eof by exact E. unfold wrote. now rewrite E.
  - rewrite (prompt_round _ _ _ _ _ _ _ E).
    unfold validate_local_path, path_exists. simpl in *.
    destruct Hbad as [Ha Hbad]. rewrite Ha.
    rewrite (IH fuel); trivial; simpl; trivial; try lia.
    f_equal. f_equal; [now rewrite <- !app_assoc | lia].
Qed.

(** ** The two validation blocks of [get_arguments] *)

Lemma truthy_some s : s <> "" -> truthy (Some s) = true.
Proof.
  intros H. simpl. apply negb_true_iff. now apply String.eqb_neq.
Qed.

Lemma truthy_inv o : truthy o = true -> exists s, o = Some s /\ s <> "".
Proof.
  destruct o as [s|]; simpl; [|discriminate].
  rewrite negb_true_iff, String.eqb_neq. intros H. now exists s.
Qed.

Lemma validate_source_present fuel args w s :
  source args = Some s -> s <> "" -> fs w (clock w) s = true ->
  validate_source fuel args w = Done args (later 1 w).
Proof.
  intros E Hs Hfs. unfold validate_source, source_rejected.
  rewrite E, (truthy_some s Hs). simpl.
  unfold bind, validate_local_path, path_exists, ret. now rewrite Hfs.
Qed.

Lemma validate_source_missing fuel args w s :
  source args = Some s -> s <> "" -> fs w (clock w) s = false ->
  validate_source fuel args w =
  (v <- prompt_for_input fuel source_prompt validate_local_path
          "Path does not exist" ;;
   ret (mkNamespace (Some v) (user args) (host args) (remote_path args)))
    (wrote (line (source_diagnostic s)) (later 1 w)).
Proof.
  intros E Hs Hfs. unfold validate_source, source_rejected.
  rewrite E, (truthy_some s Hs). simpl.
  unfold bind at 1. unfold bind at 1.
  unfold validate_local_path at 1. unfold path_exists. rewrite Hfs. simpl.
  unfold bind at 1. reflexivity.
Qed.

Lemma validate_source_omitted fuel args w :
  truthy (source args) = false ->
  validate_source fuel args w =
  (v <- prompt_for_input fuel source_prompt validate_local_path
          "Path does not exist" ;;
   ret (mkNamespace (Some v) (user args) (host args) (remote_path args))) w.
Proof.
  intros E. unfold validate_source, source_rejected. rewrite E. simpl.
  unfold bind at 1. simpl. unfold bind at 1. reflexivity.
Qed.

Lemma validate_host_valid fuel args w :
  validate_ip (host args) = true -> validate_host fuel args w = Done args w.
Proof. intros E. unfold validate_host. now rewrite E. Qed.

Lemma validate_host_invalid fuel args w :
  validate_ip (host args) = false ->
  validate_host fuel args w =
  (v <- prompt_for_input fuel host_prompt (fun ip => ret (validate_ip ip))
          "IP address format is invalid" ;;
   ret (mkNamespace (source args) (user args) v (remote_path args)))
    (wrote (line (host_diagnostic (host args))) w).
Proof.
  intros E. unfold validate_host. rewrite E. simpl.
  unfold bind at 1. reflexivity.
Qed.

Lemma bind_done {A B} (m : M A) (f : A -> M B) w b w' :
  bind m f w = Done b w' ->
  exists a w1, m w = Done a w1 /\ f a w1 = Done b w'.
Proof.
  unfold bind. destruct (m w) as [a w1 | e w1 | w1]; try discriminate.
  intros H. now exists a, w1.
Qed.

(** The source path of a returned namespace was seen to exist. *)
Lemma validate_source_returns fuel args w args' w' :
  validate_source fuel args w = Done args' w' ->
  user args' = user args /\ host args' = host args /\
  remote_path args' = remote_path args /\
  exists s t, source args' = Some s /\
              clock w <= t < clock w' /\ fs w t s = true.
Proof.
  intros H.
  assert (Loop : forall w0, talks w w0 ->
    (v <- prompt_for_input fuel source_prompt validate_local_path
            "Path does not exist" ;;
     ret (mkNamespace (Some v) (user args) (host args) (remote_path args)))
      w0 = Done args' w' ->
    user args' = user args /\ host args' = host args /\
    remote_path args' = remote_path args /\
    exists s t, source args' = Some s /\
                clock w <= t < clock w' /\ fs w t s = true).
  { intros w0 T0 H0. apply bind_done in H0 as (v & w1 & P & R).
    injection R as <- <-. simpl. repeat split.
    apply prompt_for_input_returns in P
      as (_ & _ & (w2 & T2 & V));
      [|intros x; apply talking_path_exists].
    unfold validate_local_path, path_exists in V. injection V as V <-.
    pose proof (talks_trans _ _ _ T0 T2) as (F & _ & _ & C & _).
    exists v, (clock w2). simpl. rewrite <- F. repeat split; trivial; lia. }
  destruct (truthy (source args)) eqn:Tr.
  - apply truthy_inv in Tr as (s & E & Hs).
    destruct (fs w (clock w) s) eqn:Hfs.
    + rewrite (validate_source_present _ _ _ s) in H by trivial.
      injection H as <- <-. repeat split.
      exists s, (clock w). simpl. repeat split; trivial; lia.
    + rewrite (validate_source_missing _ _ _ s) in H by trivial.
      apply Loop in H; trivial.
      eapply talks_trans; [apply (talks_later 1) | apply talks_wrote].
  - rewrite validate_source_omitted in H by trivial.
    apply Loop in H; trivial. apply talks_refl.
Qed.

(** The host of a returned namespace passes [validate_ip]; it is the host
    given, or the strip of an answer that was read. *)
Lemma validate_host_returns fuel args w args' w' :
  validate_host fuel args w = Done args' w' ->
  source args' = source args /\ user args' = user args /\
  remote_path args' = remote_path args /\
  validate_ip (host args') = true /\
  (validate_ip (host args) = false ->
   exists answer, In answer (stdin w) /\ host args' = strip answer).
Proof.
  intros H. destruct (validate_ip (host args)) eqn:V.
  - rewrite validate_host_valid in H by trivial. injection H as <- <-.
    repeat split; trivial. discriminate.
  - rewrite validate_host_invalid in H by trivial.
    apply bind_done in H as (v & w1 & P & R). injection R as <- <-. simpl.
    apply prompt_for_input_returns in P
      as (_ & (answer & Hin & ->) & (w2 & T2 & Hv));
      [|intros x; apply talking_ret].
    unfold ret in Hv. injection Hv as Hv <-.
    repeat split; trivial. intros _. now exists answer.
Qed.

Lemma get_arguments_returns fuel argv w args w' :
  get_arguments fuel argv w = Done args w' ->
  user args = user (parse_args argv) /\
  remote_path args = remote_path (parse_args argv) /\
  validate_ip (host args) = true /\
  (exists s t, source args = Some s /\
               clock w <= t < clock w' /\ fs w t s = true) /\
  (validate_ip (host (parse_args argv)) = false ->
   exists answer, In answer (stdin w) /\ host args = strip answer).
Proof.
  unfold get_arguments. intros H.
  apply bind_done in H as (a1 & w1 & H1 & H).
  apply bind_done in H as (a2 & w2 & H2 & H). injection H as <- <-.
  pose proof (talking_validate_source fuel (parse_args argv) w) as T1.
  pose proof (talking_validate_host fuel a1 w1) as T2.
  rewrite H1 in T1. rewrite H2 in T2. simpl in T1, T2.
  apply validate_source_returns in H1 as (U1 & Ho1 & R1 & s & t & S1 & C1 & F1).
  apply validate_host_returns in H2 as (S2 & U2 & R2 & V2 & A2).
  repeat split; try congruence.
  - exists s, t. destruct T2 as (_ & _ & _ & C2 & _).
    repeat split; try congruence; lia.
  - intros Hbad. rewrite <- Ho1 in Hbad.
    destruct (A2 Hbad) as (answer & Hin & E). exists answer. split; trivial.
    eapply talks_stdin_in; eauto.
Qed.

(** ** The transfer *)

Lemma transfer_unfold args w :
  transfer args w =
  match child w (command_of args) with
  | Exited rc =>
      if Z.eqb rc 0
      then Done tt (wrote (line success_message)
                      (launched (command_of args) (announced args w)))
      else Raised (SystemExit rc)
             (wrote (line (failed_diagnostic rc))
                (launched (command_of args) (announced args w)))
  | NotFound =>
      Raised (SystemExit 1)
        (wrote (line not_found_diagnostic)
           (launched (command_of args) (announced args w)))
  | NotExecutable =>
      Raised PermissionError (launched (command_of args) (announced args w))
  | Failed errno =>
      Raised (OSError errno) (launched (command_of args) (announced args w))
  end.
Proof.
  unfold transfer, bind, print, write, try_except, subprocess_run.
  simpl. fold (command_of args).
  destruct (child w (command_of args)) as [rc| | |errno]; trivial.
  destruct (Z.eqb rc 0); reflexivity.
Qed.

Lemma transfer_spawned args w :
  spawned (final_world (transfer args w)) = spawned w ++ [command_of args].
Proof.
  rewrite transfer_unfold.
  destruct (child w (command_of args)) as [rc| | |errno]; trivial.
  destruct (Z.eqb rc 0); reflexivity.
Qed.

Lemma transfer_clock args w : clock (final_world (transfer args w)) = clock w.
Proof.
  rewrite transfer_unfold.
  destruct (child w (command_of args)) as [rc| | |errno]; trivial.
  destruct (Z.eqb rc 0); reflexivity.
Qed.

Lemma main_unfold fuel argv w :
  main fuel argv w =
  match get_arguments fuel argv w with
  | Done args w1 => transfer args w1
  | Raised e w1 => Raised e w1
  | Unfinished w1 => Unfinished w1
  end.
Proof. reflexivity. Qed.

Lemma main_after_get_arguments fuel argv w args w1 :
  get_arguments fuel argv w = Done args w1 ->
  main fuel argv w = transfer args w1.
Proof. intros H. now rewrite main_unfold, H. Qed.


(** ** What reaches rsync *)

(** C2.  Whatever [get_arguments] returns has a source that was seen to
    exist at one of the look-ups made during validation and a host that
    passes [validate_ip]; every command [main] launches is the rsync command
    for such a source and host; and when the host given on the command line
    fails [validate_ip], [main] launches nothing unless it has read an
    answer whose strip passes [validate_ip], and then uses that as the
    host. *)
Theorem invoker_sees_validated_request fuel argv w :
  (forall args w',
     get_arguments fuel argv w = Done args w' ->
     validate_ip (host args) = true /\
     exists s t, source args = Some s /\
                 clock w <= t < clock w' /\ fs w t s = true) /\
  (forall command,
     In command (spawned (final_world (main fuel argv w))) ->
     In command (spawned w) \/
     exists s u h r t,
       command = rsync_command s u h r /\ validate_ip h = true /\
       clock w <= t < clock (final_world (main fuel argv w)) /\
       fs w t s = true) /\
  (validate_ip (host (parse_args argv)) = false ->
   spawned (final_world (main fuel argv w)) = spawned w \/
   exists answer s u r,
     In answer (stdin w) /\ validate_ip (strip answer) = true /\
     spawned (final_world (main fuel argv w))
       = spawned w ++ [rsync_command s u (strip answer) r]).
Proof.
  pose proof (talking_get_arguments fuel argv w) as T.
  repeat split.
  - now apply get_arguments_returns in H.
  - now apply get_arguments_returns in H.
  - intros command Hin. rewrite main_unfold in *.
    destruct (get_arguments fuel argv w) as [args w1 | e w1 | w1] eqn:G;
      simpl in T; destruct T as (_ & _ & S & _);
      try (left; simpl in Hin; now rewrite <- S).
    rewrite transfer_spawned, S in Hin. rewrite transfer_clock.
    apply in_app_or in Hin as [Hin | [<- | []]]; [now left | right].
    apply get_arguments_returns in G as (_ & _ & V & (s & t & Es & Ct & Ft) & _).
    exists s, (user args), (host args), (remote_path args), t.
    unfold command_of. rewrite Es. now repeat split.
  - intros Hbad. rewrite main_unfold.
    destruct (get_arguments fuel argv w) as [args w1 | e w1 | w1] eqn:G;
      simpl in T; destruct T as (_ & _ & S & _); try now left.
    right. rewrite transfer_spawned, S.
    apply get_arguments_returns in G as (_ & _ & V & _ & A).
    destruct (A Hbad) as (answer & Hin & E).
    exists answer, (text (source args)), (user args), (remote_path args).
    unfold command_of. rewrite <- E. now repeat split.
Qed.

Lemma invoker_sees_validated_request_witness :
  let argv := options (Some "/tmp/y") (Some "999.1.1.1") in
  let w := world0 ["/tmp/x"; "10.0.0.5"] (String.eqb "/tmp/x") (Exited 0) in
  validate_ip (host (parse_args argv)) = false /\
  (exists args w',
     get_arguments 3 argv w = Done args w' /\
     validate_ip (host args) = true /\
     exists s t, source args = Some s /\
                 clock w <= t < clock w' /\ fs w t s = true) /\
  (exists command,
     In command (spawned (final_world (main 3 argv w))) /\
     (In command (spawned w) \/
      exists s u h r t,
        command = rsync_command s u h r /\ validate_ip h = true /\
        clock w <= t < clock (final_world (main 3 argv w)) /\
        fs w t s = true)) /\
  (spawned (final_world (main 3 argv w)) = spawned w \/
   exists answer s u r,
     In answer (stdin w) /\ validate_ip (strip answer) = true /\
     spawned (final_world (main 3 argv w))
       = spawned w ++ [rsync_command s u (strip answer) r]).
Proof.
  intros argv w.
  destruct (invoker_sees_validated_request 3 argv w) as (A & B & C).
  split; [reflexivity|]. split; [|split].
  - eexists. eexists. split; [vm_compute; reflexivity|].
    apply A. vm_compute. reflexivity.
  - eexists. split; [|apply B]; vm_compute; left; reflexivity.
  - apply C. reflexivity.
Defined.

(** C3.  The command handed to [subprocess.run] is always [rsync] with the
    fixed options [-avh --progress --partial --inplace] ([-a] archive,
    [-h] human-readable sizes, [-v] which [--progress] implies, progress
    display, keeping partial transfers, updating in place), then the source
    as given, then [user@host:remote_path]; this holds for every request
    and so for every validated one, and for the request [get_arguments]
    returns to [main]. *)
Theorem invoker_command :
  (forall s u h r w,
     spawned (final_world (transfer (mkNamespace (Some s) u h r) w))
     = spawned w ++
       [["rsync"; "-avh"; "--progress"; "--partial"; "--inplace"; s;
         (u ++ "@" ++ h ++ ":" ++ r)%string]]) /\
  (forall fuel argv w s u h r w1,
     get_arguments fuel argv w = Done (mkNamespace (Some s) u h r) w1 ->
     spawned (final_world (main fuel argv w))
     = spawned w ++
       [["rsync"; "-avh"; "--progress"; "--partial"; "--inplace"; s;
         (u ++ "@" ++ h ++ ":" ++ r)%string]]).
Proof.
  split.
  - intros s u h r w. apply transfer_spawned.
  - intros fuel argv w s u h r w1 G.
    pose proof (talking_get_arguments fuel argv w) as T. rewrite G in T.
    destruct T as (_ & _ & S & _). simpl in S.
    rewrite (main_after_get_arguments _ _ _ _ _ G), transfer_spawned, S.
    reflexivity.
Qed.

Lemma invoker_command_witness :
  let argv := mkCommandLine (Some "/tmp/testfile") (Some "alice")
                            (Some "10.0.0.5") (Some "/backup/") in
  let w := world0 [] (String.eqb "/tmp/testfile") (Exited 0) in
  get_arguments 1 argv w
  = Done (mkNamespace (Some "/tmp/testfile") "alice" "10.0.0.5" "/backup/")
         (later 1 w) /\
  spawned (final_world (main 1 argv w))
  = [["rsync"; "-avh"; "--progress"; "--partial"; "--inplace";
      "/tmp/testfile"; "alice@10.0.0.5:/backup/"]].
Proof.
  intros argv w. split; [reflexivity|].
  apply (proj2 invoker_command 1 argv w "/tmp/testfile" "alice" "10.0.0.5"
               "/backup/" (later 1 w)).
  reflexivity.
Defined.

(** ** How the child's end is relayed *)

Lemma int_of_str_of_int n : int_of_str (str_of_int n) = Some n.
Proof.
  unfold int_of_str, str_of_int.
  rewrite NilZero.isi.
  - simpl. now rewrite DecimalZ.of_to.
  - destruct n as [|p|p]; simpl; try discriminate.
    intros [= H]. now apply (DecimalPos.Unsigned.to_uint_nonnil p).
  - destruct n as [|p|p]; simpl; try discriminate.
    intros [= H]. now apply (DecimalPos.Unsigned.to_uint_nonnil p).
Qed.

Lemma string_app_assoc (a b c : string) :
  ((a ++ b) ++ c = a ++ (b ++ c))%string.
Proof.
  induction a as [|x a IH]; simpl; [reflexivity|]. now rewrite IH.
Qed.

(** C4 (as amended).  When rsync ends with a return code [N] other than
    zero, [main] prints [Error: Transfer failed with error code N.] with [N]
    in decimal as its last line and leaves through [sys.exit(N)], without a
    traceback: the exit status is [N] modulo 256, which is [N] itself for
    every [N] from 1 to 255. *)
Theorem main_relays_failure fuel argv w args w1 (N : Z) :
  get_arguments fuel argv w = Done args w1 ->
  child w (command_of args) = Exited N ->
  N <> 0%Z ->
  main fuel argv w
  = Raised (SystemExit N)
      (wrote ("Error: Transfer failed with error code "
              ++ str_of_int N ++ "." ++ String "010" "")%string
         (launched (command_of args) (announced args w1))) /\
  int_of_str (str_of_int N) = Some N /\
  exit_status (main fuel argv w) = Some (N mod 256)%Z /\
  ((0 < N < 256)%Z -> exit_status (main fuel argv w) = Some N) /\
  traceback (main fuel argv w) = None.
Proof.
  intros G Hc HN.
  pose proof (talking_get_arguments fuel argv w) as T. rewrite G in T.
  destruct T as (_ & C & _). simpl in C.
  rewrite (main_after_get_arguments _ _ _ _ _ G), transfer_unfold, C, Hc.
  apply Z.eqb_neq in HN. rewrite HN.
  split; [|split; [|split; [|split]]].
  - unfold failed_diagnostic, line. now rewrite <- !string_app_assoc.
  - apply int_of_str_of_int.
  - reflexivity.
  - intros HR. simpl. now rewrite Z.mod_small by lia.
  - reflexivity.
Qed.

Lemma main_relays_failure_witness :
  let argv := options (Some "/tmp/x") None in
  exit_status (main 1 argv (world0 [] (String.eqb "/tmp/x") (Exited 1)))
    = Some 1%Z /\
  exit_status (main 1 argv (world0 [] (String.eqb "/tmp/x") (Exited 23)))
    = Some 23%Z /\
  last (stdout (final_world
          (main 1 argv (world0 [] (String.eqb "/tmp/x") (Exited 23))))) ""
    = String.append "Error: Transfer failed with error code 23."
                    (String "010" "").
Proof.
  intros argv.
  pose (args := mkNamespace (Some "/tmp/x") "cbwinslow" "192.168.6.69"
                            "/home/cbwinslow/").
  split; [|split].
  - apply (main_relays_failure 1 argv
             (world0 [] (String.eqb "/tmp/x") (Exited 1)) args
             (later 1 (world0 [] (String.eqb "/tmp/x") (Exited 1))) 1%Z);
      [reflexivity | reflexivity | discriminate | lia].
  - apply (main_relays_failure 1 argv
             (world0 [] (String.eqb "/tmp/x") (Exited 23)) args
             (later 1 (world0 [] (String.eqb "/tmp/x") (Exited 23))) 23%Z);
      [reflexivity | reflexivity | discriminate | lia].
  - destruct (main_relays_failure 1 argv
             (world0 [] (String.eqb "/tmp/x") (Exited 23)) args
             (later 1 (world0 [] (String.eqb "/tmp/x") (Exited 23))) 23%Z)
      as (E & _); [reflexivity | reflexivity | discriminate |].
    rewrite E. reflexivity.
Defined.

(** C4 as worded fails for a return code outside 1..255: for a child killed
    by signal 9 [subprocess.run] reports the return code -9, [main] prints
    that number and calls [sys.exit(-9)], and the process ends with status
    247. *)
Lemma main_relays_signal_counterexample :
  let argv := options (Some "/tmp/x") None in
  let w := world0 [] (String.eqb "/tmp/x") (Exited (-9)) in
  child w (command_of (parse_args argv)) = Exited (-9) /\
  last (stdout (final_world (main 1 argv w))) ""
    = String.append "Error: Transfer failed with error code -9."
                    (String "010" "") /\
  exit_status (main 1 argv w) = Some 247%Z /\
  exit_status (main 1 argv w) <> Some (-9)%Z.
Proof.
  intros argv w. repeat split. discriminate.
Qed.

(** C5 (as amended).  When the rsync executable is not found, so that
    [subprocess.run] raises [FileNotFoundError], [main] prints
    [Error: rsync command not found. Please ensure rsync is installed.] as
    its last line and ends through [sys.exit(1)]: the exit status is 1 and
    no traceback is printed. *)
Theorem main_tool_not_found fuel argv w args w1 :
  get_arguments fuel argv w = Done args w1 ->
  child w (command_of args) = NotFound ->
  main fuel argv w
  = Raised (SystemExit 1)
      (wrote (line "Error: rsync command not found. Please ensure rsync is installed.")
         (launched (command_of args) (announced args w1))) /\
  exit_status (main fuel argv w) = Some 1%Z /\
  traceback (main fuel argv w) = None.
Proof.
  intros G Hc.
  pose proof (talking_get_arguments fuel argv w) as T. rewrite G in T.
  destruct T as (_ & C & _). simpl in C.
  rewrite (main_after_get_arguments _ _ _ _ _ G), transfer_unfold, C, Hc.
  now repeat split.
Qed.

Lemma main_tool_not_found_witness :
  let argv := options (Some "/tmp/x") None in
  let w := world0 [] (String.eqb "/tmp/x") NotFound in
  exit_status (main 1 argv w) = Some 1%Z /\ traceback (main 1 argv w) = None.
Proof.
  intros argv w.
  apply (main_tool_not_found 1 argv w
           (mkNamespace (Some "/tmp/x") "cbwinslow" "192.168.6.69"
                        "/home/cbwinslow/") (later 1 w));
    reflexivity.
Defined.

(** C5 as worded fails when the executable is found and cannot be executed:
    [subprocess.run] raises [PermissionError], no clause of [main] names it,
    the script ends on a traceback and the "not found" line is not
    printed. *)
Lemma main_tool_not_executable_counterexample :
  let argv := options (Some "/tmp/x") None in
  let w := world0 [] (String.eqb "/tmp/x") NotExecutable in
  child w (command_of (parse_args argv)) = NotExecutable /\
  traceback (main 1 argv w) = Some PermissionError /\
  ~ In (line not_found_diagnostic) (stdout (final_world (main 1 argv w))).
Proof.
  intros argv w. split; [reflexivity|]. split; [reflexivity|].
  vm_compute. intros [H | [H | [H | []]]]; discriminate.
Qed.

(** C6.  When rsync ends with return code zero, [main] writes
    [Transfer completed successfully!] and a line feed as the last thing
    after its three lines of announcement, and runs to its end: the exit
    status is 0 and there is no traceback. *)
Theorem main_reports_success fuel argv w args w1 :
  get_arguments fuel argv w = Done args w1 ->
  child w (command_of args) = Exited 0 ->
  main fuel argv w
  = Done tt (wrote (String.append "Transfer completed successfully!"
                                  (String "010" ""))
               (launched (command_of args) (announced args w1))) /\
  stdout (final_world (main fuel argv w))
  = stdout w1 ++
    [String.append "Starting file/folder transfer using rsync..."
                   (String "010" "");
     ("Source: " ++ text (source args) ++ String "010" "")%string;
     ("Destination: " ++ user args ++ "@" ++ host args ++ ":"
      ++ remote_path args ++ String "010" "")%string;
     String.append "Transfer completed successfully!" (String "010" "")] /\
  exit_status (main fuel argv w) = Some 0%Z /\
  traceback (main fuel argv w) = None.
Proof.
  intros G Hc.
  pose proof (talking_get_arguments fuel argv w) as T. rewrite G in T.
  destruct T as (_ & C & _). simpl in C.
  rewrite (main_after_get_arguments _ _ _ _ _ G), transfer_unfold, C, Hc.
  split; [reflexivity|]. split; [|split; reflexivity].
  unfold announced, wrote, launched, final_world. cbn [stdout].
  rewrite <- !app_assoc. cbn [app]. unfold line, destination.
  rewrite !string_app_assoc. reflexivity.
Qed.

Lemma main_reports_success_witness :
  let argv := mkCommandLine (Some "/tmp/testfile") (Some "alice")
                            (Some "10.0.0.5") (Some "/backup/") in
  let w := world0 [] (String.eqb "/tmp/testfile") (Exited 0) in
  exit_status (main 1 argv w) = Some 0%Z /\
  last (stdout (final_world (main 1 argv w))) ""
    = String.append "Transfer completed successfully!" (String "010" "").
Proof.
  intros argv w.
  destruct (main_reports_success 1 argv w
              (mkNamespace (Some "/tmp/testfile") "alice" "10.0.0.5"
                           "/backup/") (later 1 w))
    as (E & _ & S & _); [reflexivity | reflexivity |].
  split; [exact S | rewrite E; reflexivity].
Defined.

(** ** The correction loop *)

Lemma prompt_for_input_result fuel pm v em :
  forall w value w',
    prompt_for_input fuel pm v em w = Done value w' ->
    stripped value = true /\ exists w1, v value w1 = Done true w'.
Proof.
  induction fuel as [|fuel IH]; intros w value w' H; [discriminate|].
  destruct (stdin w) as [|answer rest] eqn:E.
  - rewrite prompt_round_eof in H by exact E. discriminate.
  - rewrite (prompt_round _ _ _ _ _ _ _ E) in H.
    destruct (v (strip answer) (left_to_read rest (wrote pm w)))
      as [[|] w2 | e w2 | w2] eqn:V; try discriminate.
    + injection H as <- <-. split; [apply strip_stripped | eauto].
    + now apply IH in H.
Qed.

Lemma bind_done_eq {A B} (m : M A) (f : A -> M B) w a w1 :
  m w = Done a w1 -> bind m f w = f a w1.
Proof. intros H. unfold bind. now rewrite H. Qed.

Lemma bind_raised_eq {A B} (m : M A) (f : A -> M B) w e w1 :
  m w = Raised e w1 -> bind m f w = Raised e w1.
Proof. intros H. unfold bind. now rewrite H. Qed.




(** ** End of input *)

Lemma talks_stdin_length w w' :
  talks w w' -> List.length (stdin w') <= List.length (stdin w).
Proof.
  intros (_ & _ & _ & _ & _ & [u U]). rewrite U, length_app. lia.
Qed.

Lemma bind_ends {A B} (m : M A) (f : A -> M B) w :
  ((exists a w1, m w = Done a w1) \/
   (exists w1, m w = Raised EOFError w1 /\ stdin w1 = [])) ->
  (forall a w1, m w = Done a w1 ->
     (exists b w2, f a w1 = Done b w2) \/
     (exists w2, f a w1 = Raised EOFError w2 /\ stdin w2 = [])) ->
  (exists b w2, bind m f w = Done b w2) \/
  (exists w2, bind m f w = Raised EOFError w2 /\ stdin w2 = []).
Proof.
  intros [(a & w1 & Hm) | (w1 & Hm & E)] Hf.
  - rewrite (bind_done_eq _ _ _ _ _ Hm). now apply Hf.
  - right. exists w1. now rewrite (bind_raised_eq _ _ _ _ _ Hm).
Qed.


Lemma validate_source_ends fuel args w :
  List.length (stdin w) < fuel ->
  (exists a w1, validate_source fuel args w = Done a w1) \/
  (exists w1, validate_source fuel args w = Raised EOFError w1 /\
              stdin w1 = []).
Proof.
  intros Hf.
  assert (Loop : forall w0, stdin w0 = stdin w ->
    (exists a w1,
       (v <- prompt_for_input fuel source_prompt validate_local_path
               "Path does not exist" ;;
        ret (mkNamespace (Some v) (user args) (host args) (remote_path args)))
         w0 = Done a w1) \/
    (exists w1,
       (v <- prompt_for_input fuel source_prompt validate_local_path
               "Path does not exist" ;;
        ret (mkNamespace (Some v) (user args) (host args) (remote_path args)))
         w0 = Raised EOFError w1 /\ stdin w1 = [])).
  { intros w0 E. apply bind_ends.
    - apply prompt_for_input_ends;
        [apply observer_validate_local_path | now rewrite E].
    - intros v w1 _. left. unfold ret. eauto. }
  destruct (truthy (source args)) eqn:Tr.
  - apply truthy_inv in Tr as (s & E & Hs).
    destruct (fs w (clock w) s) eqn:Hfs.
    + rewrite (validate_source_present _ _ _ s) by trivial. left. eauto.
    + rewrite (validate_source_missing _ _ _ s) by trivial. now apply Loop.
  - rewrite validate_source_omitted by trivial. now apply Loop.
Qed.

Lemma validate_host_ends fuel args w :
  List.length (stdin w) < fuel ->
  (exists a w1, validate_host fuel args w = Done a w1) \/
  (exists w1, validate_host fuel args w = Raised EOFError w1 /\
              stdin w1 = []).
Proof.
  intros Hf. destruct (validate_ip (host args)) eqn:V.
  - rewrite validate_host_valid by trivial. left. eauto.
  - rewrite validate_host_invalid by trivial. apply bind_ends.
    + apply prompt_for_input_ends; [apply observer_pure | exact Hf].
    + intros v w1 _. left. unfold ret. eauto.
Qed.

Lemma get_arguments_ends fuel argv w :
  List.length (stdin w) < fuel ->
  (exists a w1, get_arguments fuel argv w = Done a w1) \/
  (exists w1, get_arguments fuel argv w = Raised EOFError w1 /\
              stdin w1 = []).
Proof.
  intros Hf. unfold get_arguments. apply bind_ends.
  - now apply validate_source_ends.
  - intros a1 w1 H1. apply bind_ends.
    + apply validate_host_ends.
      pose proof (talking_validate_source fuel (parse_args argv) w) as T.
      rewrite H1 in T. apply talks_stdin_length in T. simpl in T. lia.
    + intros a2 w2 _. left. unfold ret. eauto.
Qed.



(** ** What [get_arguments] writes *)

Lemma final_world_bind {A B} (m : M A) (f : A -> M B) w :
  final_world (bind m f w)
  = match m w with
    | Done a w1 => final_world (f a w1)
    | Raised _ w1 => w1
    | Unfinished w1 => w1
    end.
Proof. unfold bind. now destruct (m w). Qed.

(** The loop writes its prompt and its retry message and nothing else, and
    the prompt comes first. *)
Lemma prompt_for_input_writes pm v em :
  observer v ->
  forall fuel w,
  exists out,
    stdout (final_world (prompt_for_input fuel pm v em w)) = stdout w ++ out /\
    Forall (fun c => c = pm \/ c = retry_message em) out /\
    (0 < fuel -> exists out', out = pm :: out').
Proof.
  intros Hv. induction fuel as [|fuel IH]; intros w.
  - exists []. simpl. rewrite app_nil_r. repeat split; trivial. lia.
  - destruct (stdin w) as [|answer rest] eqn:E.
    + rewrite prompt_round_eof by exact E. exists [pm]. simpl.
      repeat split; eauto.
    + rewrite (prompt_round _ _ _ _ _ _ _ E).
      destruct (Hv (strip answer) (left_to_read rest (wrote pm w)))
        as (b & n & ->).
      destruct b.
      * exists [pm]. simpl. repeat split; eauto.
      * destruct (IH (wrote (retry_message em)
                        (later n (left_to_read rest (wrote pm w)))))
          as (out & O & F & _).
        exists (pm :: retry_message em :: out). rewrite O. simpl.
        rewrite <- !app_assoc. repeat split; eauto.
Qed.

Lemma string_app_chars a b : chars (a ++ b) = chars a ++ chars b.
Proof.
  unfold chars. induction a as [|c a IH]; simpl; [reflexivity|].
  now rewrite IH.
Qed.

Lemma chars_inj a b : chars a = chars b -> a = b.
Proof.
  unfold chars. intros H.
  rewrite <- (string_of_list_ascii_of_string a),
          <- (string_of_list_ascii_of_string b).
  now rewrite H.
Qed.

Lemma source_diagnostic_inj v v' :
  line (source_diagnostic v) = line (source_diagnostic v') -> v = v'.
Proof.
  unfold line, source_diagnostic. intros H. apply chars_inj.
  apply (f_equal chars) in H. rewrite !string_app_chars in H.
  apply app_inv_tail in H. apply app_inv_head in H.
  now apply app_inv_tail in H.
Qed.

Lemma source_diagnostic_not_chatter v h c :
  c = source_prompt \/ c = retry_message "Path does not exist" \/
  c = line (host_diagnostic h) \/ c = host_prompt \/
  c = retry_message "IP address format is invalid" ->
  line (source_diagnostic v) <> c.
Proof.
  unfold line, source_diagnostic, host_diagnostic, retry_message, line,
    source_prompt, host_prompt.
  intros [-> | [-> | [-> | [-> | ->]]]]; simpl; discriminate.
Qed.

Lemma validate_source_writes fuel args w :
  exists out,
    stdout (final_world (validate_source fuel args w)) = stdout w ++ out /\
    (truthy (source args) = false -> 0 < fuel ->
     exists out', out = source_prompt :: out') /\
    (forall v, In (line (source_diagnostic v)) out <->
               source args = Some v /\ v <> "" /\ fs w (clock w) v = false).
Proof.
  assert (Loop : forall w0 : world, exists out,
    stdout (final_world
      ((v <- prompt_for_input fuel source_prompt validate_local_path
              "Path does not exist" ;;
        ret (mkNamespace (Some v) (user args) (host args) (remote_path args)))
         w0)) = stdout w0 ++ out /\
    (0 < fuel -> exists out', out = source_prompt :: out') /\
    (forall v, ~ In (line (source_diagnostic v)) out)).
  { intros w0.
    destruct (prompt_for_input_writes source_prompt validate_local_path
                "Path does not exist" observer_validate_local_path fuel w0)
      as (out & O & F & P).
    exists out. rewrite final_world_bind. split; [|split; trivial].
    - now destruct (prompt_for_input fuel source_prompt validate_local_path
                      "Path does not exist" w0).
    - intros v Hin. rewrite Forall_forall in F.
      destruct (F _ Hin) as [H | H]; revert H;
        apply (source_diagnostic_not_chatter v ""); tauto. }
  destruct (truthy (source args)) eqn:Tr.
  - apply truthy_inv in Tr as (s & E & Hs).
    destruct (fs w (clock w) s) eqn:Hfs.
    + rewrite (validate_source_present _ _ _ s) by trivial.
      exists []. simpl. rewrite app_nil_r. repeat split; try discriminate;
        try tauto.
      intros (E' & _ & F'). congruence.
    + rewrite (validate_source_missing _ _ _ s) by trivial.
      destruct (Loop (wrote (line (source_diagnostic s)) (later 1 w)))
        as (out & O & _ & N).
      exists (line (source_diagnostic s) :: out). rewrite O. simpl.
      rewrite <- app_assoc. repeat split; try discriminate.
      * destruct H as [H | H]; [|now apply N in H].
        apply source_diagnostic_inj in H. congruence.
      * destruct H as [H | H]; [|now apply N in H].
        apply source_diagnostic_inj in H. congruence.
      * destruct H as [H | H]; [|now apply N in H].
        apply source_diagnostic_inj in H. congruence.
      * intros (E' & _). left. congruence.
  - rewrite validate_source_omitted by trivial.
    destruct (Loop w) as (out & O & P & N).
    exists out. split; [exact O|]. split; [intros _; exact P|].
    intros v. split; [intros H; now apply N in H|].
    intros (E' & Hv & _). rewrite E' in Tr. rewrite truthy_some in Tr by trivial.
    discriminate.
Qed.

Lemma validate_host_writes fuel args w :
  exists out,
    stdout (final_world (validate_host fuel args w)) = stdout w ++ out /\
    forall v, ~ In (line (source_diagnostic v)) out.
Proof.
  destruct (validate_ip (host args)) eqn:V.
  - rewrite validate_host_valid by trivial. exists []. simpl.
    rewrite app_nil_r. split; trivial. intros v [].
  - rewrite validate_host_invalid by trivial.
    destruct (prompt_for_input_writes host_prompt
                (fun ip => ret (validate_ip ip))
                "IP address format is invalid" (observer_pure validate_ip)
                fuel (wrote (line (host_diagnostic (host args))) w))
      as (out & O & F & _).
    exists (line (host_diagnostic (host args)) :: out).
    rewrite final_world_bind. split.
    + destruct (prompt_for_input fuel host_prompt
                  (fun ip => ret (validate_ip ip))
                  "IP address format is invalid"
                  (wrote (line (host_diagnostic (host args))) w));
        simpl in *; rewrite O, <- app_assoc; reflexivity.
    + intros v [H | H].
      * symmetry in H. revert H.
        apply (source_diagnostic_not_chatter v (host args)). tauto.
      * rewrite Forall_forall in F. destruct (F _ H) as [E | E];
          revert E; apply (source_diagnostic_not_chatter v ""); tauto.
Qed.

(** C10.  With the source left out, the first thing [get_arguments] writes
    is the prompt for a source path; and
    [Error: Provided source 'v' does not exist.] is among what it writes
    exactly when a non-empty source [v] was given and does not exist. *)
Theorem omitted_source_is_prompted fuel argv w :
  exists out,
    stdout (final_world (get_arguments fuel argv w)) = stdout w ++ out /\
    (arg_source argv = None -> 0 < fuel ->
     exists out', out = source_prompt :: out') /\
    (forall v, In (line (source_diagnostic v)) out <->
               arg_source argv = Some v /\ v <> "" /\
               fs w (clock w) v = false).
Proof.
  destruct (validate_source_writes fuel (parse_args argv) w)
    as (out1 & O1 & P1 & D1).
  unfold get_arguments. rewrite final_world_bind.
  destruct (validate_source fuel (parse_args argv) w)
    as [a1 w1 | e w1 | w1] eqn:G1; simpl in O1.
  - destruct (validate_host_writes fuel a1 w1) as (out2 & O2 & D2).
    rewrite final_world_bind.
    exists (out1 ++ out2). split; [|split].
    + destruct (validate_host fuel a1 w1); simpl in *;
        rewrite O2, O1, app_assoc; reflexivity.
    + intros E Hf. destruct (P1 (f_equal truthy E) Hf) as (out' & ->).
      now exists (out' ++ out2).
    + intros v. rewrite in_app_iff, D1. split; [|tauto].
      intros [H | H]; [exact H | now apply D2 in H].
  - exists out1. split; [exact O1|]. split; [|exact D1].
    intros E. apply P1. simpl. now rewrite E.
  - exists out1. split; [exact O1|]. split; [|exact D1].
    intros E. apply P1. simpl. now rewrite E.
Qed.

Lemma omitted_source_is_prompted_witness :
  let argv := options None (Some "999.1.1.1") in
  let w := world0 ["/tmp/x"; "10.0.0.5"] (String.eqb "/tmp/x") (Exited 0) in
  exists out,
    stdout (final_world (get_arguments 2 argv w)) = out /\
    (exists out', out = source_prompt :: out') /\
    ~ In (line (source_diagnostic "/tmp/x")) out.
Proof.
  intros argv w.
  destruct (omitted_source_is_prompted 2 argv w) as (out & O & P & D).
  exists out. split; [exact O|]. split.
  - apply P; [reflexivity | lia].
  - intros H. apply D in H as (E & _). discriminate E.
Defined.

(** * Further properties of the script *)

(** ** [validate_ip], exactly *)

Lemma chomp_split s : s = chomp s \/ s = chomp s ++ [LF].
Proof.
  induction s as [|c s IH]; [now left|].
  destruct s as [|c' s].
  - simpl. destruct (Ascii.eqb c LF) eqn:E; [|now left].
    apply Ascii.eqb_eq in E as ->. now right.
  - change (chomp (c :: c' :: s)) with (c :: chomp (c' :: s)).
    destruct IH as [IH | IH].
    + left. now rewrite <- IH.
    + right. rewrite <- app_comm_cons. now rewrite <- IH.
Qed.

Lemma four_groups_dotted a b c d :
  octet_numeral a = true -> octet_numeral b = true ->
  octet_numeral c = true -> octet_numeral d = true ->
  four_groups octet_numeral (dotted a b c d) = true.
Proof.
  intros Ha Hb Hc Hd. unfold four_groups, components, dotted.
  assert (F : forall g, octet_numeral g = true -> free_of "." g = true).
  { intros g Hg. apply digits_free_of; [reflexivity|].
    now apply octet_numeral_digits. }
  rewrite !split_on_app by now apply F.
  rewrite split_on_free by now apply F.
  now rewrite Ha, Hb, Hc, Hd.
Qed.

(** X1.  [validate_ip] answers yes exactly on the strings that, once a
    line feed in last position is set aside, are four dot-separated groups
    of one to three digits, each denoting a number in 0-255. *)
Theorem validate_ip_exact s :
  validate_ip s = true <->
  four_groups octet_numeral (chomp (chars s)) = true.
Proof.
  split.
  - intros H. apply validate_ip_shape in H
      as (a & b & c & d & t & _ & Ha & Hb & Hc & Hd & _ & _ & E).
    rewrite E. now apply four_groups_dotted.
  - intros H. apply four_groups_inv in H
      as (a & b & c & d & E & Ha & Hb & Hc & Hd).
    apply components_dotted in E. apply validate_ip_iff.
    destruct (chomp_split (chars s)) as [S | S].
    + exists a, b, c, d, []. rewrite app_nil_r, S, E. now repeat split.
    + exists a, b, c, d, [LF]. rewrite S, E. now repeat split.
Qed.

(** ** The line feed that [$] lets through *)

Lemma chars_line s : chars (line s) = chars s ++ [LF].
Proof. unfold line. now rewrite string_app_chars. Qed.

(** X2.  A host given on the command line as a correct dotted quad
    followed by one line feed passes the check of [get_arguments]: nothing
    is written, nothing is read, and the host goes on unchanged, line feed
    included. *)
Theorem validate_host_keeps_final_line_feed fuel src u q r w :
  four_groups octet_numeral (chars q) = true ->
  validate_host fuel (mkNamespace src u (line q) r) w
  = Done (mkNamespace src u (line q) r) w.
Proof.
  intros H. apply validate_host_valid. simpl.
  apply four_groups_inv in H as (a & b & c & d & E & Ha & Hb & Hc & Hd).
  apply components_dotted in E. apply validate_ip_iff.
  exists a, b, c, d, [LF]. rewrite chars_line, E. now repeat split.
Qed.

Lemma validate_host_keeps_final_line_feed_witness :
  let w := world0 ["10.0.0.5"] (String.eqb "/tmp/x") (Exited 0) in
  validate_host 1 (mkNamespace (Some "/tmp/x") "alice" (line "10.0.0.5")
                               "/backup/") w
  = Done (mkNamespace (Some "/tmp/x") "alice" (line "10.0.0.5") "/backup/") w.
Proof.
  intros w.
  apply (validate_host_keeps_final_line_feed 1 (Some "/tmp/x") "alice"
           "10.0.0.5" "/backup/" w).
  reflexivity.
Defined.

Lemma stripped_last_not_LF l :
  stripped (string_of_list_ascii (l ++ [LF])) = false.
Proof.
  unfold stripped. rewrite chars_of_list, rev_app_distr. simpl.
  apply andb_false_iff. now right.
Qed.

Lemma stripped_valid_is_quad s :
  stripped s = true -> validate_ip s = true ->
  four_groups octet_numeral (chars s) = true.
Proof.
  intros Hs Hv. apply validate_ip_shape in Hv
    as (a & b & c & d & t & E & Ha & Hb & Hc & Hd & [-> | ->] & _ & _).
  - rewrite app_nil_r in E. rewrite E. now apply four_groups_dotted.
  - exfalso. rewrite <- (string_of_list_ascii_of_string s) in Hs.
    fold (chars s) in Hs. rewrite E, stripped_last_not_LF in Hs.
    discriminate.
Qed.

(** X3.  On input lines whose characters are code points below 256, a
    host that [get_arguments] obtained at the prompt is four dot-separated
    groups of one to three digits, each in 0-255, and nothing more: the
    line feed that [validate_ip] tolerates is stripped before the check. *)
Theorem prompted_host_is_dotted_quad fuel args w args' w' :
  validate_ip (host args) = false ->
  validate_host fuel args w = Done args' w' ->
  four_groups octet_numeral (chars (host args')) = true.
Proof.
  intros Hbad H. rewrite validate_host_invalid in H by trivial.
  apply bind_done in H as (v & w1 & P & R). injection R as <- <-. simpl.
  apply prompt_for_input_result in P as (S & (w2 & V)).
  unfold ret in V. injection V as V _.
  now apply stripped_valid_is_quad.
Qed.

Lemma prompted_host_is_dotted_quad_witness :
  let w := world0 ["abc"; " 10.0.0.5 "] (String.eqb "/tmp/x") (Exited 0) in
  let args := mkNamespace (Some "/tmp/x") "alice" "999.1.1.1" "/backup/" in
  validate_host 2 args w
  = Done (mkNamespace (Some "/tmp/x") "alice" "10.0.0.5" "/backup/")
         (mkWorld [] [line (host_diagnostic "999.1.1.1"); host_prompt;
                      retry_message "IP address format is invalid";
                      host_prompt] 0 (fs w) (child w) []) /\
  four_groups octet_numeral (chars "10.0.0.5") = true.
Proof.
  intros w args. split; [reflexivity|].
  apply (prompted_host_is_dotted_quad 2 args w
           (mkNamespace (Some "/tmp/x") "alice" "10.0.0.5" "/backup/")
           (mkWorld [] [line (host_diagnostic "999.1.1.1"); host_prompt;
                        retry_message "IP address format is invalid";
                        host_prompt] 0 (fs w) (child w) []));
    reflexivity.
Defined.

(** ** What [strip] leaves of an answer *)

Lemma lstrip_split l :
  exists sp, l = sp ++ lstrip l /\ forallb isspace sp = true.
Proof.
  induction l as [|c l (sp & E & F)]; simpl.
  - now exists [].
  - destruct (isspace c) eqn:Hc.
    + exists (c :: sp). simpl. rewrite Hc, F. split; trivial.
      now rewrite <- E.
    + now exists [].
Qed.

Lemma forallb_rev {A} (p : A -> bool) l :
  forallb p l = true -> forallb p (rev l) = true.
Proof.
  rewrite !forallb_forall. intros H x Hx. apply H. now apply in_rev.
Qed.

Lemma rstrip_split l :
  exists sp, l = rstrip l ++ sp /\ forallb isspace sp = true.
Proof.
  unfold rstrip. destruct (lstrip_split (rev l)) as (sp & E & F).
  exists (rev sp). split; [|now apply forallb_rev].
  rewrite <- rev_app_distr, <- E. now rewrite rev_involutive.
Qed.

Lemma strip_split s :
  exists l r, chars s = l ++ chars (strip s) ++ r /\
              forallb isspace l = true /\ forallb isspace r = true.
Proof.
  destruct (lstrip_split (chars s)) as (l & El & Fl).
  destruct (rstrip_split (lstrip (chars s))) as (r & Er & Fr).
  exists l, r. unfold strip. rewrite chars_of_list.
  repeat split; trivial. now rewrite <- Er.
Qed.

Lemma lstrip_fixed l :
  match l with
  | [] => true
  | c :: _ => negb (isspace c)
  end = true ->
  lstrip l = l.
Proof.
  destruct l as [|c l]; simpl; [reflexivity|].
  rewrite negb_true_iff. now intros ->.
Qed.

Lemma strip_fixed s : stripped s = true -> strip s = s.
Proof.
  unfold stripped, strip, rstrip. rewrite andb_true_iff. intros [H1 H2].
  rewrite (lstrip_fixed _ H1), (lstrip_fixed _ H2), rev_involutive.
  apply string_of_list_ascii_of_string.
Qed.

(** X4.  What [prompt_for_input] returns is one of the answers typed, less
    the white space around it: the answer is the value with white space
    before and after, white space inside the value is kept, and stripping
    the value again changes nothing. *)
Theorem prompt_for_input_value_is_answer_stripped fuel pm v em w value w' :
  observer v ->
  prompt_for_input fuel pm v em w = Done value w' ->
  exists answer l r,
    In answer (stdin w) /\
    chars answer = l ++ chars value ++ r /\
    forallb isspace l = true /\ forallb isspace r = true /\
    strip value = value.
Proof.
  intros Hv H.
  apply prompt_for_input_returns in H as (S & (answer & Hin & ->) & _).
  - destruct (strip_split answer) as (l & r & E & Fl & Fr).
    exists answer, l, r. repeat split; trivial. now apply strip_fixed.
  - intros x w0. destruct (Hv x w0) as (b & n & ->). apply talks_later.
Qed.

Lemma prompt_for_input_value_is_answer_stripped_witness :
  let w := world0 ["  /tmp/no  "; "  /tmp/my file  "]
                  (String.eqb "/tmp/my file") (Exited 0) in
  exists answer l r,
    In answer (stdin w) /\
    chars answer = l ++ chars "/tmp/my file" ++ r /\
    forallb isspace l = true /\ forallb isspace r = true /\
    strip "/tmp/my file" = "/tmp/my file".
Proof.
  intros w.
  apply (prompt_for_input_value_is_answer_stripped 2 source_prompt
           validate_local_path "Path does not exist" w "/tmp/my file"
           (mkWorld [] [source_prompt; retry_message "Path does not exist";
                        source_prompt] 2 (fs w) (child w) []));
    [apply observer_validate_local_path | reflexivity].
Defined.

(** ** One prompt for each answer *)

(** X5.  For a validation function that only answers, and on an input of
    fewer lines than the fuel, the loop of [prompt_for_input] reads one
    line for each prompt it writes, writes the retry message after each
    refusal and nothing else, and ends in one of two ways: it returns the
    strip of the last line read, or it has read every line, has written a
    last prompt and raises [EOFError]. *)
Theorem prompt_for_input_transcript pm v em :
  observer v ->
  forall fuel w,
    List.length (stdin w) < fuel ->
    match prompt_for_input fuel pm v em w with
    | Done value w' =>
        exists refused answer,
          stdin w = refused ++ answer :: stdin w' /\
          value = strip answer /\
          stdout w' = stdout w ++ retries pm em (List.length refused) ++ [pm]
    | Raised e w' =>
        e = EOFError /\ stdin w' = [] /\
        stdout w' = stdout w ++ retries pm em (List.length (stdin w)) ++ [pm]
    | Unfinished _ => False
    end.
Proof.
  intros Hv. induction fuel as [|fuel IH]; intros w Hf; [lia|].
  destruct (stdin w) as [|answer rest] eqn:E.
  - rewrite prompt_round_eof by exact E. simpl. now repeat split.
  - rewrite (prompt_round _ _ _ _ _ _ _ E).
    destruct (Hv (strip answer) (left_to_read rest (wrote pm w)))
      as (b & n & ->).
    destruct b.
    + exists [], answer. simpl. now repeat split.
    + specialize (IH (wrote (retry_message em)
                        (later n (left_to_read rest (wrote pm w))))).
      simpl in IH, Hf.
      destruct (prompt_for_input fuel pm v em
                  (wrote (retry_message em)
                     (later n (left_to_read rest (wrote pm w)))))
        as [value w' | e w' | w'].
      * destruct IH as (refused & a & S & V & O); [lia|].
        exists (answer :: refused), a. simpl. rewrite S, O.
        repeat split; trivial. now rewrite <- !app_assoc.
      * destruct IH as (-> & S & O); [lia|].
        repeat split; trivial. rewrite O. simpl. now rewrite <- !app_assoc.
      * apply IH. lia.
Qed.

Lemma prompt_for_input_transcript_witness :
  let w := world0 ["/tmp/no"; " /tmp/x "; "left"] (String.eqb "/tmp/x")
                  (Exited 0) in
  exists refused answer,
    ["/tmp/no"; " /tmp/x "; "left"] = refused ++ answer :: ["left"] /\
    "/tmp/x" = strip answer /\
    [source_prompt; retry_message "Path does not exist"; source_prompt]
    = [] ++ retries source_prompt "Path does not exist" (List.length refused)
         ++ [source_prompt].
Proof.
  intros w.
  exact (prompt_for_input_transcript source_prompt validate_local_path
           "Path does not exist" observer_validate_local_path 4 w
           (Nat.lt_succ_diag_r 3)).
Defined.

(** ** [get_arguments] as a whole *)

(** X6.  When the source given is not empty and exists and the host passes
    [validate_ip], [get_arguments] asks nothing: it reads no input, writes
    nothing, looks at the file system once and returns the parsed arguments
    as they are, whatever the fuel. *)
Theorem get_arguments_silent fuel argv w s :
  arg_source argv = Some s -> s <> "" ->
  fs w (clock w) s = true ->
  validate_ip (host (parse_args argv)) = true ->
  get_arguments fuel argv w = Done (parse_args argv) (later 1 w).
Proof.
  intros E Hs Hfs Hv. unfold get_arguments.
  rewrite (bind_done_eq _ _ _ (parse_args argv) (later 1 w))
    by now apply (validate_source_present _ _ _ s).
  rewrite (bind_done_eq _ _ _ (parse_args argv) (later 1 w))
    by now apply validate_host_valid.
  reflexivity.
Qed.

Lemma get_arguments_silent_witness :
  let argv := options (Some "/tmp/x") (Some "10.0.0.5") in
  let w := world0 ["unread"] (String.eqb "/tmp/x") (Exited 0) in
  get_arguments 0 argv w
  = Done (mkNamespace (Some "/tmp/x") "cbwinslow" "10.0.0.5"
                      "/home/cbwinslow/")
         (mkWorld ["unread"] [] 1 (fs w) (child w) []).
Proof.
  intros argv w.
  apply (get_arguments_silent 0 argv w "/tmp/x");
    [reflexivity | discriminate | reflexivity | reflexivity].
Defined.

(** X7.  The two correction loops share one input: with the source left
    out or empty and the host invalid, the answers for the source are read
    first, up to the first one that names an existing path, and the answers
    for the host are read after it, up to the first one that passes
    [validate_ip]; what follows is left unread.  No diagnostic is written
    for the source, one is written for the host, and both fields are
    replaced. *)
Theorem get_arguments_repairs_both fuel argv w bad_s good_s bad_h good_h rest :
  truthy (arg_source argv) = false ->
  validate_ip (host (parse_args argv)) = false ->
  stdin w = bad_s ++ good_s :: bad_h ++ good_h :: rest ->
  all_missing (fs w) (clock w) bad_s ->
  fs w (List.length bad_s + clock w) (strip good_s) = true ->
  Forall (fun a => validate_ip (strip a) = false) bad_h ->
  validate_ip (strip good_h) = true ->
  List.length bad_s < fuel -> List.length bad_h < fuel ->
  get_arguments fuel argv w
  = Done (mkNamespace (Some (strip good_s)) (user (parse_args argv))
                      (strip good_h) (remote_path (parse_args argv)))
         (mkWorld rest
            (stdout w
             ++ retries source_prompt "Path does not exist"
                  (List.length bad_s)
             ++ source_prompt
             :: line (host_diagnostic (host (parse_args argv)))
             :: retries host_prompt "IP address format is invalid"
                  (List.length bad_h)
             ++ [host_prompt])
            (S (List.length bad_s) + clock w) (fs w) (child w) (spawned w)).
Proof.
  intros Tr Hv E Ms Gs Mh Gh Fs Fh. unfold get_arguments.
  erewrite bind_done_eq.
  2:{ rewrite validate_source_omitted by exact Tr.
      erewrite bind_done_eq;
        [|apply (prompt_for_input_path_run _ _ bad_s good_s
                   (bad_h ++ good_h :: rest)); eassumption].
      reflexivity. }
  erewrite bind_done_eq.
  2:{ rewrite validate_host_invalid by exact Hv.
      erewrite bind_done_eq;
        [|apply (prompt_for_input_pure_run validate_ip _ _ bad_h good_h rest);
          simpl; trivial].
      reflexivity. }
  unfold ret. simpl. f_equal. f_equal.
  repeat (rewrite <- ?app_assoc; simpl). reflexivity.
Qed.

Lemma get_arguments_repairs_both_witness :
  let argv := options None (Some "999.1.1.1") in
  let w := world0 ["/tmp/no"; " /tmp/x"; "1.2.3"; "10.0.0.5 "; "unread"]
                  (String.eqb "/tmp/x") (Exited 0) in
  get_arguments 2 argv w
  = Done (mkNamespace (Some "/tmp/x") "cbwinslow" "10.0.0.5"
                      "/home/cbwinslow/")
         (mkWorld ["unread"]
            [source_prompt; retry_message "Path does not exist";
             source_prompt; line (host_diagnostic "999.1.1.1");
             host_prompt; retry_message "IP address format is invalid";
             host_prompt]
            2 (fs w) (child w) []).
Proof.
  intros argv w.
  apply (get_arguments_repairs_both 2 argv w ["/tmp/no"] " /tmp/x" ["1.2.3"]
           "10.0.0.5 " ["unread"]);
    solve [ reflexivity | simpl; lia | repeat constructor ].
Defined.

(** X8.  A source given as the empty string is treated as no source at
    all: the two command lines give the same run in every world, and the
    file system is not asked about the empty path. *)
Theorem empty_source_is_omitted_source fuel u h r w :
  get_arguments fuel (mkCommandLine (Some "") u h r) w
  = get_arguments fuel (mkCommandLine None u h r) w.
Proof.
  unfold get_arguments. unfold bind at 1 3.
  rewrite !validate_source_omitted by reflexivity. reflexivity.
Qed.

(** X9.  The user name and the remote path are never checked or changed:
    whatever [get_arguments] returns carries them as given on the command
    line, or their defaults, also after the source and the host have been
    replaced at the prompt, and [main] puts them as they are into the
    destination of the one command it launches. *)
Theorem user_and_remote_path_pass_through fuel argv w args w1 :
  get_arguments fuel argv w = Done args w1 ->
  user args = with_default (opt_user argv) "cbwinslow" /\
  remote_path args = with_default (opt_remote_path argv) "/home/cbwinslow/" /\
  spawned (final_world (main fuel argv w))
  = spawned w ++
    [rsync_command (text (source args))
       (with_default (opt_user argv) "cbwinslow") (host args)
       (with_default (opt_remote_path argv) "/home/cbwinslow/")].
Proof.
  intros G.
  pose proof (talking_get_arguments fuel argv w) as T. rewrite G in T.
  destruct T as (_ & _ & S & _). simpl in S.
  rewrite (main_after_get_arguments _ _ _ _ _ G), transfer_spawned, S.
  apply get_arguments_returns in G as (U & R & _).
  unfold command_of. rewrite U, R. now repeat split.
Qed.

Lemma user_and_remote_path_pass_through_witness :
  let argv := mkCommandLine None (Some "") (Some "999.1.1.1")
                            (Some "my dir/") in
  let w := world0 [" /tmp/x"; "10.0.0.5"] (String.eqb "/tmp/x") (Exited 0) in
  spawned (final_world (main 1 argv w))
  = [["rsync"; "-avh"; "--progress"; "--partial"; "--inplace"; "/tmp/x";
      "@10.0.0.5:my dir/"]].
Proof.
  intros argv w.
  destruct (user_and_remote_path_pass_through 1 argv w
              (mkNamespace (Some "/tmp/x") "" "10.0.0.5" "my dir/")
              (mkWorld [] [source_prompt; line (host_diagnostic "999.1.1.1");
                           host_prompt] 1 (fs w) (child w) []))
    as (_ & _ & S); [reflexivity | exact S].
Defined.

(** ** [main] as a whole *)

Lemma transfer_stdin args w : stdin (final_world (transfer args w)) = stdin w.
Proof.
  rewrite transfer_unfold.
  destruct (child w (command_of args)) as [rc| | |errno]; trivial.
  destruct (Z.eqb rc 0); reflexivity.
Qed.

(** X10.  [main] launches rsync once when [get_arguments] returns, and not
    at all otherwise; it never launches a second command, and once
    [get_arguments] has returned it reads no more input and does not look
    at the file system again. *)
Theorem main_launches_once fuel argv w :
  match get_arguments fuel argv w with
  | Done args w1 =>
      spawned (final_world (main fuel argv w))
        = spawned w ++ [command_of args] /\
      stdin (final_world (main fuel argv w)) = stdin w1 /\
      clock (final_world (main fuel argv w)) = clock w1
  | _ => spawned (final_world (main fuel argv w)) = spawned w
  end.
Proof.
  rewrite main_unfold.
  pose proof (talking_get_arguments fuel argv w) as (_ & _ & S & _).
  destruct (get_arguments fuel argv w) as [args w1 | e w1 | w1];
    simpl in S; trivial.
  rewrite transfer_spawned, transfer_stdin, transfer_clock, S.
  now repeat split.
Qed.

(** X11.  Once the command line is parsed, and on an input of fewer lines
    than the fuel, [main] always ends, in one of six ways: it runs to its
    end after rsync returned 0; it leaves through [sys.exit] with the return
    code of rsync, which is not 0; it leaves through [sys.exit(1)] because
    rsync was not found; it dies on the [PermissionError] of the launch; it
    dies on another [OSError] of the launch; or it dies on [EOFError] with
    the input used up and nothing launched. *)
Theorem main_endings fuel argv w :
  List.length (stdin w) < fuel ->
  (exists args w1 w',
     get_arguments fuel argv w = Done args w1 /\
     child w (command_of args) = Exited 0 /\
     main fuel argv w = Done tt w') \/
  (exists args w1 rc w',
     get_arguments fuel argv w = Done args w1 /\
     child w (command_of args) = Exited rc /\ rc <> 0%Z /\
     main fuel argv w = Raised (SystemExit rc) w') \/
  (exists args w1 w',
     get_arguments fuel argv w = Done args w1 /\
     child w (command_of args) = NotFound /\
     main fuel argv w = Raised (SystemExit 1) w') \/
  (exists args w1 w',
     get_arguments fuel argv w = Done args w1 /\
     child w (command_of args) = NotExecutable /\
     main fuel argv w = Raised PermissionError w') \/
  (exists args w1 errno w',
     get_arguments fuel argv w = Done args w1 /\
     child w (command_of args) = Failed errno /\
     main fuel argv w = Raised (OSError errno) w') \/
  (exists w',
     main fuel argv w = Raised EOFError w' /\
     stdin w' = [] /\ spawned w' = spawned w).
Proof.
  intros Hf. rewrite main_unfold.
  pose proof (talking_get_arguments fuel argv w) as T.
  destruct (get_arguments_ends fuel argv w Hf)
    as [(args & w1 & G) | (w1 & G & E)]; rewrite G in *; simpl in T.
  - destruct T as (_ & C & _). rewrite transfer_unfold, C.
    destruct (child w (command_of args)) as [rc| | |errno] eqn:Ch.
    + destruct (Z.eqb rc 0) eqn:Z.
      * apply Z.eqb_eq in Z as ->. left. eauto 10.
      * apply Z.eqb_neq in Z. right. left. eauto 10.
    + right. right. left. eauto 10.
    + right. right. right. left. eauto 10.
    + do 4 right. left. eauto 10.
  - destruct T as (_ & _ & S & _). do 5 right. eauto.
Qed.

Lemma main_endings_witness :
  let argv := options None None in
  let w := world0 ["/tmp/no"] (String.eqb "/tmp/x") (Exited 0) in
  exists w', main 2 argv w = Raised EOFError w' /\
             stdin w' = [] /\ spawned w' = spawned w.
Proof.
  intros argv w.
  destruct (main_endings 2 argv w)
    as [(a & w1 & w' & G & _) | [(a & w1 & rc & w' & G & _)
       | [(a & w1 & w' & G & _) | [(a & w1 & w' & G & _)
       | [(a & w1 & errno & w' & G & _) | H]]]]];
    [simpl; lia | discriminate G .. | exact H].
Defined.

Lemma opens_with_E_prompt_output pm em out :
  opens_with "E" pm ->
  Forall (fun c => c = pm \/ c = retry_message em) out ->
  Forall (opens_with "E") out.
Proof.
  intros Hpm. apply Forall_impl. intros c [-> | ->]; trivial.
  unfold retry_message, line. simpl. eexists. reflexivity.
Qed.

Lemma validate_source_writes_E fuel args w :
  exists out,
    stdout (final_world (validate_source fuel args w)) = stdout w ++ out /\
    Forall (opens_with "E") out.
Proof.
  assert (Loop : forall w0 : world, exists out,
    stdout (final_world
      ((v <- prompt_for_input fuel source_prompt validate_local_path
              "Path does not exist" ;;
        ret (mkNamespace (Some v) (user args) (host args) (remote_path args)))
         w0)) = stdout w0 ++ out /\
    Forall (opens_with "E") out).
  { intros w0.
    destruct (prompt_for_input_writes source_prompt validate_local_path
                "Path does not exist" observer_validate_local_path fuel w0)
      as (out & O & F & _).
    exists out. rewrite final_world_bind. split.
    - now destruct (prompt_for_input fuel source_prompt validate_local_path
                      "Path does not exist" w0).
    - eapply opens_with_E_prompt_output; [|exact F]. eexists. reflexivity. }
  destruct (truthy (source args)) eqn:Tr.
  - apply truthy_inv in Tr as (s & E & Hs).
    destruct (fs w (clock w) s) eqn:Hfs.
    + rewrite (validate_source_present _ _ _ s) by trivial.
      exists []. simpl. now rewrite app_nil_r.
    + rewrite (validate_source_missing _ _ _ s) by trivial.
      destruct (Loop (wrote (line (source_diagnostic s)) (later 1 w)))
        as (out & O & F).
      exists (line (source_diagnostic s) :: out). rewrite O. simpl.
      rewrite <- app_assoc. split; trivial. constructor; trivial.
      eexists. reflexivity.
  - rewrite validate_source_omitted by trivial. apply Loop.
Qed.

Lemma validate_host_writes_E fuel args w :
  exists out,
    stdout (final_world (validate_host fuel args w)) = stdout w ++ out /\
    Forall (opens_with "E") out.
Proof.
  destruct (validate_ip (host args)) eqn:V.
  - rewrite validate_host_valid by trivial. exists []. simpl.
    now rewrite app_nil_r.
  - rewrite validate_host_invalid by trivial.
    destruct (prompt_for_input_writes host_prompt
                (fun ip => ret (validate_ip ip))
                "IP address format is invalid" (observer_pure validate_ip)
                fuel (wrote (line (host_diagnostic (host args))) w))
      as (out & O & F & _).
    exists (line (host_diagnostic (host args)) :: out).
    rewrite final_world_bind. split.
    + destruct (prompt_for_input fuel host_prompt
                  (fun ip => ret (validate_ip ip))
                  "IP address format is invalid"
                  (wrote (line (host_diagnostic (host args))) w));
        simpl in *; rewrite O, <- app_assoc; reflexivity.
    + constructor; [eexists; reflexivity|].
      eapply opens_with_E_prompt_output; [|exact F]. eexists. reflexivity.
Qed.

Lemma get_arguments_writes_E fuel argv w :
  exists out,
    stdout (final_world (get_arguments fuel argv w)) = stdout w ++ out /\
    Forall (opens_with "E") out.
Proof.
  destruct (validate_source_writes_E fuel (parse_args argv) w)
    as (out1 & O1 & F1).
  unfold get_arguments. rewrite final_world_bind.
  destruct (validate_source fuel (parse_args argv) w)
    as [a1 w1 | e w1 | w1]; simpl in O1; eauto.
  destruct (validate_host_writes_E fuel a1 w1) as (out2 & O2 & F2).
  rewrite final_world_bind. exists (out1 ++ out2). split.
  - destruct (validate_host fuel a1 w1); simpl in *;
      rewrite O2, O1, app_assoc; reflexivity.
  - apply Forall_app. now split.
Qed.

Lemma not_success_line c :
  opens_with "E" c \/ opens_with "S" c \/ opens_with "D" c ->
  line success_message <> c.
Proof.
  intros [[r ->] | [[r ->] | [r ->]]]; discriminate.
Qed.

(** X12.  [Transfer completed successfully!] is among what the script
    writes exactly when [get_arguments] returned and rsync ended with
    return code 0: success is never reported for a transfer that failed,
    that could not be launched, or that was never reached. *)
Theorem success_line_only_on_success fuel argv w :
  exists out,
    stdout (final_world (main fuel argv w)) = stdout w ++ out /\
    (In (line success_message) out <->
     exists args w1,
       get_arguments fuel argv w = Done args w1 /\
       child w (command_of args) = Exited 0).
Proof.
  destruct (get_arguments_writes_E fuel argv w) as (out & O & F).
  pose proof (talking_get_arguments fuel argv w) as T.
  assert (N : ~ In (line success_message) out).
  { intros Hin. rewrite Forall_forall in F. specialize (F _ Hin).
    revert F. intros F. now apply (not_success_line _ (or_introl F)). }
  rewrite main_unfold.
  destruct (get_arguments fuel argv w) as [args w1 | e w1 | w1] eqn:G;
    simpl in O, T.
  - destruct T as (_ & C & _). rewrite transfer_unfold, C.
    assert (A : forall last_line,
      stdout (wrote last_line (launched (command_of args) (announced args w1)))
      = stdout w ++ out ++
        [line "Starting file/folder transfer using rsync...";
         line ("Source: " ++ text (source args));
         line ("Destination: " ++ destination (user args) (host args)
                                    (remote_path args));
         last_line]).
    { intros l. simpl. rewrite O. now rewrite <- !app_assoc. }
    assert (N3 : forall l, l <> line success_message ->
      ~ In (line success_message)
          (out ++
           [line "Starting file/folder transfer using rsync...";
            line ("Source: " ++ text (source args));
            line ("Destination: " ++ destination (user args) (host args)
                                       (remote_path args));
            l])).
    { intros l Hl Hin. apply in_app_or in Hin as [Hin | Hin]; [tauto|].
      simpl in Hin.
      destruct Hin as [H | [H | [H | [H | []]]]].
      - symmetry in H. revert H. apply not_success_line.
        right. left. eexists. reflexivity.
      - symmetry in H. revert H. apply not_success_line.
        right. left. eexists. reflexivity.
      - symmetry in H. revert H. apply not_success_line.
        right. right. eexists. reflexivity.
      - now apply Hl. }
    destruct (child w (command_of args)) as [rc| | |errno] eqn:Ch.
    + destruct (Z.eqb rc 0) eqn:Z.
      * apply Z.eqb_eq in Z as ->. eexists. split; [apply A|].
        split; [intros _; eauto|]. intros _.
        apply in_or_app. right. simpl. tauto.
      * apply Z.eqb_neq in Z. eexists. split; [apply A|]. split.
        -- intros Hin. exfalso. revert Hin. apply N3. discriminate.
        -- intros (a & w' & [= <- <-] & E). congruence.
    + eexists. split; [apply A|]. split.
      * intros Hin. exfalso. revert Hin. apply N3. discriminate.
      * intros (a & w' & [= <- <-] & E). congruence.
    + exists (out ++
        [line "Starting file/folder transfer using rsync...";
         line ("Source: " ++ text (source args));
         line ("Destination: " ++ destination (user args) (host args)
                                    (remote_path args))]).
      split; [simpl; rewrite O; now rewrite <- !app_assoc|]. split.
      * intros Hin. exfalso. apply in_app_or in Hin as [Hin | Hin]; [tauto|].
        simpl in Hin. destruct Hin as [H | [H | [H | []]]]; discriminate.
      * intros (a & w' & [= <- <-] & E). congruence.
    + exists (out ++
        [line "Starting file/folder transfer using rsync...";
         line ("Source: " ++ text (source args));
         line ("Destination: " ++ destination (user args) (host args)
                                    (remote_path args))]).
      split; [simpl; rewrite O; now rewrite <- !app_assoc|]. split.
      * intros Hin. exfalso. apply in_app_or in Hin as [Hin | Hin]; [tauto|].
        simpl in Hin. destruct Hin as [H | [H | [H | []]]]; discriminate.
      * intros (a & w' & [= <- <-] & E). congruence.
  - exists out. split; trivial. split; [tauto|].
    intros (a & w' & E & _). discriminate.
  - exists out. split; trivial. split; [tauto|].
    intros (a & w' & E & _). discriminate.
Qed.

(** X13.  With only an existing, non-empty source on the command line,
    [main] asks nothing and launches rsync towards the defaults: user
    [cbwinslow], host [192.168.6.69], remote path [/home/cbwinslow/]. *)
Theorem main_with_defaults fuel s w :
  s <> "" -> fs w (clock w) s = true ->
  spawned (final_world (main fuel (mkCommandLine (Some s) None None None) w))
  = spawned w ++
    [["rsync"; "-avh"; "--progress"; "--partial"; "--inplace"; s;
      "cbwinslow@192.168.6.69:/home/cbwinslow/"]] /\
  stdin (final_world (main fuel (mkCommandLine (Some s) None None None) w))
  = stdin w.
Proof.
  intros Hs Hfs.
  assert (G : get_arguments fuel (mkCommandLine (Some s) None None None) w
              = Done (parse_args (mkCommandLine (Some s) None None None))
                     (later 1 w)).
  { unfold get_arguments.
    rewrite (bind_done_eq _ _ _ _ _
               (validate_source_present fuel
                  (parse_args (mkCommandLine (Some s) None None None)) w s
                  eq_refl Hs Hfs)).
    rewrite (bind_done_eq _ _ _ _ _
               (validate_host_valid fuel
                  (parse_args (mkCommandLine (Some s) None None None))
                  (later 1 w) eq_refl)).
    reflexivity. }
  rewrite (main_after_get_arguments _ _ _ _ _ G), transfer_spawned,
    transfer_stdin.
  split; reflexivity.
Qed.

Lemma main_with_defaults_witness :
  let w := world0 ["unread"] (String.eqb "/tmp/x") (Exited 0) in
  spawned (final_world
             (main 0 (mkCommandLine (Some "/tmp/x") None None None) w))
  = [["rsync"; "-avh"; "--progress"; "--partial"; "--inplace"; "/tmp/x";
      "cbwinslow@192.168.6.69:/home/cbwinslow/"]] /\
  stdin (final_world
           (main 0 (mkCommandLine (Some "/tmp/x") None None None) w))
  = ["unread"].
Proof.
  intros w. apply (main_with_defaults 0 "/tmp/x" w);
    [discriminate | reflexivity].
Defined.
